(** * corn.py: near-infrared spectra of maize, regression pipeline

    A shallow embedding of the preprocessing, splitting, model-shape, training
    loop, evaluation and feature-importance code of [src/corn/corn.py].

    Number model.  The arrays handled by numpy and scikit-learn hold IEEE
    doubles.  Their finite values are taken as exact reals ([R]), so that the
    algebra of the transforms can be stated; the outcome of an array division
    keeps IEEE's special values ([npfloat]).  The training loop only adds,
    divides and compares Python floats, so it is embedded over the kernel's
    binary64 numbers ([float]) and runs by computation. *)

From Stdlib Require Import Reals Lra Lia List ZArith Permutation Sorted.
From Stdlib Require Floats.
From Stdlib Require String Ascii.
From stdpp Require Import base list.
Import ListNotations.

(** ** numpy: sums, means, standard deviations, true division *)

Module Numpy.

Open Scope R_scope.

(** The result of an element-wise float division: a finite value, an infinity
    or NaN.  Zero carries no sign in this model. *)
Inductive npfloat : Type :=
| Fin (r : R)
| PInf
| NInf
| NaN.

Definition is_finite (x : npfloat) : bool :=
  match x with Fin _ => true | _ => false end.

(** [a / b] on finite operands as numpy evaluates it: a zero divisor raises
    nothing, it yields NaN for [0 / 0] and a signed infinity otherwise. *)
Definition np_true_divide (a b : R) : npfloat :=
  if Req_EM_T b 0 then
    if Req_EM_T a 0 then NaN
    else if Rlt_dec 0 a then PInf else NInf
  else Fin (a / b).

Fixpoint np_sum (l : list R) : R :=
  match l with
  | [] => 0
  | x :: t => x + np_sum t
  end.

(** [np.mean] of a one-dimensional array.  For an empty array numpy returns
    NaN; the value chosen by [R]'s total division there is never observed,
    since every use below maps over the elements of the same array. *)
Definition np_mean (l : list R) : R := np_sum l / INR (length l).

(** [np.var] and [np.std] with the default [ddof = 0] (population). *)
Definition np_var (l : list R) : R :=
  np_mean (map (fun x => (x - np_mean l) * (x - np_mean l)) l).

Definition np_std (l : list R) : R := sqrt (np_var l).

Lemma square_nonneg (d : R) : 0 <= d * d.
Proof. nra. Qed.

Lemma square_zero (d : R) : d * d = 0 -> d = 0.
Proof. nra. Qed.

Lemma np_true_divide_nonzero (a b : R) :
  b <> 0 -> np_true_divide a b = Fin (a / b).
Proof.
  intros Hb. unfold np_true_divide.
  destruct (Req_EM_T b 0) as [E | _]; [contradiction | reflexivity].
Qed.

Lemma np_true_divide_zero_zero : np_true_divide 0 0 = NaN.
Proof.
  unfold np_true_divide.
  destruct (Req_EM_T 0 0) as [_ | N]; [reflexivity | contradiction].
Qed.

Lemma np_sum_app (l1 l2 : list R) : np_sum (l1 ++ l2) = np_sum l1 + np_sum l2.
Proof. induction l1 as [| x t IH]; simpl; [lra | rewrite IH; lra]. Qed.

Lemma np_sum_scale (c : R) (f : R -> R) (l : list R) :
  np_sum (map (fun x => c * f x) l) = c * np_sum (map f l).
Proof. induction l as [| x t IH]; simpl; [lra | rewrite IH; lra]. Qed.

Lemma np_sum_shift (m : R) (l : list R) :
  np_sum (map (fun x => x - m) l) = np_sum l - INR (length l) * m.
Proof.
  induction l as [| x t IH].
  - simpl. lra.
  - cbn [map np_sum length]. rewrite IH, S_INR. lra.
Qed.

Lemma np_sum_ext (f g : R -> R) (l : list R) :
  (forall x, In x l -> f x = g x) ->
  np_sum (map f l) = np_sum (map g l).
Proof.
  induction l as [| x t IH]; intros H; simpl; [reflexivity |].
  rewrite (H x), IH; [reflexivity | | left; reflexivity].
  intros y Hy. apply H. right. exact Hy.
Qed.

Lemma np_sum_nonneg (l : list R) :
  (forall x, In x l -> 0 <= x) -> 0 <= np_sum l.
Proof.
  induction l as [| x t IH]; intros H; simpl; [lra |].
  assert (0 <= x) by (apply H; left; reflexivity).
  assert (0 <= np_sum t) by (apply IH; intros y Hy; apply H; right; exact Hy).
  lra.
Qed.

Lemma np_sum_zero_nonneg (l : list R) :
  (forall x, In x l -> 0 <= x) -> np_sum l = 0 ->
  forall x, In x l -> x = 0.
Proof.
  induction l as [| y t IH]; intros Hpos Hsum x Hx; [destruct Hx |].
  simpl in Hsum.
  assert (Hy : 0 <= y) by (apply Hpos; left; reflexivity).
  assert (Ht : 0 <= np_sum t).
  { apply np_sum_nonneg. intros z Hz. apply Hpos. right. exact Hz. }
  destruct Hx as [-> | Hx]; [lra |].
  apply IH; [| lra | exact Hx].
  intros z Hz. apply Hpos. right. exact Hz.
Qed.

Lemma INR_length_pos {A : Type} (l : list A) : l <> [] -> 0 < INR (length l).
Proof.
  destruct l as [| a t]; [congruence | intros _].
  change (length (a :: t)) with (S (length t)).
  rewrite S_INR. pose proof (pos_INR (length t)). lra.
Qed.

Lemma np_mean_nil : np_mean [] = 0.
Proof. unfold np_mean. simpl. lra. Qed.

Lemma np_var_nonneg (l : list R) : 0 <= np_var l.
Proof.
  destruct l as [| a t].
  - unfold np_var. simpl. rewrite np_mean_nil. lra.
  - unfold np_var. unfold np_mean at 1. rewrite length_map.
    apply Rmult_le_pos.
    + apply np_sum_nonneg. intros x Hx.
      apply in_map_iff in Hx. destruct Hx as [y [<- _]]. apply square_nonneg.
    + left. apply Rinv_0_lt_compat. apply INR_length_pos. discriminate.
Qed.

Lemma np_std_nil : np_std [] = 0.
Proof.
  unfold np_std, np_var. simpl. rewrite np_mean_nil. apply sqrt_0.
Qed.

Lemma np_std_sqr (l : list R) : np_std l * np_std l = np_var l.
Proof. unfold np_std. apply sqrt_sqrt. apply np_var_nonneg. Qed.

(** A zero standard deviation means every element equals the mean. *)
Lemma np_std_zero_constant (l : list R) :
  np_std l = 0 -> forall x, In x l -> x = np_mean l.
Proof.
  intros H0 x Hx.
  assert (Hv : np_var l = 0) by (rewrite <- np_std_sqr, H0; lra).
  assert (Hne : l <> []) by (intros ->; destruct Hx).
  pose proof (INR_length_pos l Hne) as Hn.
  unfold np_var in Hv. unfold np_mean at 1 in Hv. rewrite length_map in Hv.
  assert (Hs : np_sum (map (fun x => (x - np_mean l) * (x - np_mean l)) l) = 0).
  { apply Rmult_integral in Hv. destruct Hv as [Hv | Hv]; [exact Hv |].
    exfalso. apply (Rinv_neq_0_compat (INR (length l))); [lra | exact Hv]. }
  assert (Hsq : (x - np_mean l) * (x - np_mean l) = 0).
  { apply (np_sum_zero_nonneg (map (fun x => (x - np_mean l) * (x - np_mean l)) l)).
    - intros y Hy. apply in_map_iff in Hy. destruct Hy as [z [<- _]].
      apply square_nonneg.
    - exact Hs.
    - apply in_map_iff. exists x. split; [reflexivity | exact Hx]. }
  apply square_zero in Hsq. lra.
Qed.

End Numpy.

(** ** Python exceptions as results *)

Inductive exn : Type :=
| ValueError
| ZeroDivisionError
| FileNotFoundError
| RuntimeError
| IndexError.

Inductive result (A : Type) : Type :=
| Ok (a : A)
| Raise (e : exn).

Arguments Ok {A} a.
Arguments Raise {A} e.

Definition bind {A B : Type} (c : result A) (k : A -> result B) : result B :=
  match c with
  | Ok a => k a
  | Raise e => Raise e
  end.

Notation "'let*' x ':=' c 'in' k" := (bind c (fun x => k))
  (at level 10, x pattern, c at level 100, k at level 200).

(** ** Preprocessing: SNV, StandardScaler, train/test split *)

Module Preprocess.

Import Numpy.
Open Scope R_scope.

(** A two-dimensional array, one row per sample. *)
Abbreviation matrix := (list (list R)).



(** *** sklearn.preprocessing.StandardScaler *)

Record StandardScaler : Type := {
  mean_ : list R;
  scale_ : list R
}.

Definition n_features (X : matrix) : nat :=
  match X with
  | [] => 0
  | row :: _ => length row
  end.

Definition column (j : nat) (X : matrix) : list R :=
  map (fun row => nth j row 0) X.

(** scikit-learn replaces a zero standard deviation by 1 before it is used as
    a divisor. *)
Definition handle_zeros_in_scale (s : R) : R :=
  if Req_EM_T s 0 then 1 else s.

(** What [fit] stores: per-column mean and population standard deviation of
    all the rows it is given. *)
Definition column_stats (X : matrix) : StandardScaler :=
  {| mean_ := map (fun j => np_mean (column j X)) (seq 0 (n_features X));
     scale_ := map (fun j => handle_zeros_in_scale (np_std (column j X)))
                   (seq 0 (n_features X)) |}.

(** [fit]: an array without samples or without features is rejected. *)
Definition fit (X : matrix) : result StandardScaler :=
  match X with
  | [] => Raise ValueError
  | _ :: _ =>
      if Nat.eqb (n_features X) 0 then Raise ValueError
      else Ok (column_stats X)
  end.

Fixpoint transform_row (mean scale x : list R) {struct x} : list R :=
  match x, mean, scale with
  | xi :: x', m :: mean', s :: scale' => (xi - m) / s :: transform_row mean' scale' x'
  | _, _, _ => []
  end.

Fixpoint inverse_transform_row (mean scale z : list R) {struct z} : list R :=
  match z, mean, scale with
  | zi :: z', m :: mean', s :: scale' => zi * s + m :: inverse_transform_row mean' scale' z'
  | _, _, _ => []
  end.

Definition width_ok (sc : StandardScaler) (X : matrix) : bool :=
  forallb (fun row => Nat.eqb (length row) (length (mean_ sc))) X.

(** [transform]: [(X - mean_) / scale_]; a row of another width is rejected. *)
Definition transform (sc : StandardScaler) (X : matrix) : result matrix :=
  if width_ok sc X then Ok (map (transform_row (mean_ sc) (scale_ sc)) X)
  else Raise ValueError.

(** [inverse_transform]: [X * scale_ + mean_]. *)
Definition inverse_transform (sc : StandardScaler) (Z : matrix) : result matrix :=
  if width_ok sc Z then Ok (map (inverse_transform_row (mean_ sc) (scale_ sc)) Z)
  else Raise ValueError.

Definition fit_transform (X : matrix) : result (StandardScaler * matrix) :=
  let* sc := fit X in
  let* Z := transform sc X in
  Ok (sc, Z).

(** *** sklearn.model_selection.train_test_split *)

(** [test_size = 0.3]: the test partition gets [ceil (0.3 * n)] samples and the
    train partition the rest.  The product is taken exactly; [SplitSizes]
    below compares it with the binary64 product. *)
Definition n_test (n : nat) : nat := (3 * n + 9) / 10.

Definition n_train (n : nat) : nat := n - n_test n.

Definition random_state : Z := 42%Z.

(** Rows selected by an index array. *)
Definition safe_indexing {A : Type} (dflt : A) (a : list A) (idx : list nat) : list A :=
  map (fun i => nth i a dflt) idx.

Section Split.

(** [RandomState(seed).permutation(n)] of numpy's Mersenne Twister. *)
Variable permutation : Z -> nat -> list nat.

(** The shuffled index array is cut after [n_test] entries: the head is
    the test partition, the following [n_train] entries the train one. *)
Definition ind_test (n : nat) : list nat :=
  firstn (n_test n) (permutation random_state n).

Definition ind_train (n : nat) : list nat :=
  firstn (n_train n) (skipn (n_test n) (permutation random_state n)).

(** An empty data set, or a split that leaves no train sample, is rejected. *)
Definition split_indices (n : nat) : result (list nat * list nat) :=
  if Nat.eqb n 0 then Raise ValueError
  else if Nat.eqb (n_train n) 0 then Raise ValueError
  else Ok (ind_train n, ind_test n).

Definition train_test_split (X y : matrix)
  : result (matrix * matrix * matrix * matrix) :=
  if negb (Nat.eqb (length X) (length y)) then Raise ValueError
  else
    let* (train, test) := split_indices (length X) in
    Ok (safe_indexing [] X train, safe_indexing [] X test,
        safe_indexing [] y train, safe_indexing [] y test).

(** *** load_and_preprocess_data, from the standardisation on

    [spectra] and [targets] are the arrays as they stand when the two
    scalers are created: the target columns of the table and the spectra
    after the optional smoothing and SNV steps. *)
Record Loaded : Type := {
  X_train : matrix;
  X_test : matrix;
  y_train : matrix;
  y_test : matrix;
  scaler_spectra : StandardScaler;
  scaler_targets : StandardScaler
}.

Definition load_and_preprocess_data (spectra targets : matrix) : result Loaded :=
  let* (sc_spectra, spectra_scaled) := fit_transform spectra in
  let* (sc_targets, targets_scaled) := fit_transform targets in
  let* (Xtr, Xte, ytr, yte) := train_test_split spectra_scaled targets_scaled in
  Ok {| X_train := Xtr; X_test := Xte; y_train := ytr; y_test := yte;
        scaler_spectra := sc_spectra; scaler_targets := sc_targets |}.

End Split.

(** *** Facts about SNV *)


Lemma np_std_nonzero_nonempty (row : list R) : np_std row <> 0 -> row <> [].
Proof. intros H ->. apply H. apply np_std_nil. Qed.

Lemma np_mean_centered (row : list R) :
  row <> [] ->
  np_sum (map (fun x => x - np_mean row) row) = 0.
Proof.
  intros Hne. rewrite np_sum_shift. unfold np_mean.
  pose proof (INR_length_pos row Hne). field. lra.
Qed.

Definition standardise (row : list R) : list R :=
  map (fun x => (x - np_mean row) / np_std row) row.


Lemma standardise_mean (row : list R) :
  np_std row <> 0 -> np_mean (standardise row) = 0.
Proof.
  intros Hs. pose proof (np_std_nonzero_nonempty row Hs) as Hne.
  unfold np_mean at 1. unfold standardise. rewrite length_map.
  replace (np_sum (map (fun x => (x - np_mean row) / np_std row) row))
    with (/ np_std row * np_sum (map (fun x => x - np_mean row) row)).
  - rewrite np_mean_centered by exact Hne. lra.
  - rewrite <- np_sum_scale. apply np_sum_ext. intros x _. lra.
Qed.

Lemma standardise_var (row : list R) :
  np_std row <> 0 -> np_var (standardise row) = 1.
Proof.
  intros Hs. pose proof (np_std_nonzero_nonempty row Hs) as Hne.
  pose proof (INR_length_pos row Hne) as Hn.
  unfold np_var. rewrite (standardise_mean row Hs).
  unfold np_mean at 1. rewrite length_map.
  unfold standardise at 1 2. rewrite length_map, map_map.
  replace (np_sum (map (fun x => ((x - np_mean row) / np_std row - 0)
                                 * ((x - np_mean row) / np_std row - 0)) row))
    with (/ (np_std row * np_std row)
          * np_sum (map (fun x => (x - np_mean row) * (x - np_mean row)) row)).
  - rewrite np_std_sqr.
    assert (Hv : np_var row <> 0) by (rewrite <- np_std_sqr; nra).
    unfold np_var in Hv |- * . unfold np_mean at 1 in Hv. unfold np_mean at 1.
    rewrite length_map in Hv |- *.
    set (S := np_sum (map (fun x => (x - np_mean row) * (x - np_mean row)) row)) in *.
    field. split; [lra |].
    intros HS. apply Hv. rewrite HS. lra.
  - rewrite <- np_sum_scale. apply np_sum_ext. intros x _. field. exact Hs.
Qed.





(** *** Zero-variance spectra *)






(** *** StandardScaler: round trip *)

Definition rectangular (d : nat) (X : matrix) : Prop :=
  Forall (fun row => length row = d) X.

Lemma handle_zeros_in_scale_nonzero (s : R) : handle_zeros_in_scale s <> 0.
Proof.
  unfold handle_zeros_in_scale. destruct (Req_EM_T s 0) as [E | N]; [lra | exact N].
Qed.

Lemma column_stats_widths (X : matrix) :
  length (mean_ (column_stats X)) = n_features X
  /\ length (scale_ (column_stats X)) = n_features X.
Proof. unfold column_stats. simpl. rewrite !length_map, !length_seq. auto. Qed.

Lemma column_stats_scale_nonzero (X : matrix) :
  Forall (fun s => s <> 0) (scale_ (column_stats X)).
Proof.
  unfold column_stats. simpl. apply List.Forall_forall. intros s Hs.
  apply in_map_iff in Hs. destruct Hs as [j [<- _]].
  apply handle_zeros_in_scale_nonzero.
Qed.

Lemma fit_inv (X : matrix) (sc : StandardScaler) :
  fit X = Ok sc -> sc = column_stats X /\ X <> [] /\ n_features X <> 0%nat.
Proof.
  unfold fit. destruct X as [| row X']; [discriminate |].
  destruct (Nat.eqb_spec (n_features (row :: X')) 0) as [E | N]; [discriminate |].
  intros [= <-]. repeat split; [discriminate | exact N].
Qed.

Lemma inverse_transform_row_cancel (mean scale x : list R) :
  length mean = length x ->
  length scale = length x ->
  Forall (fun s => s <> 0) scale ->
  inverse_transform_row mean scale (transform_row mean scale x) = x.
Proof.
  revert mean scale.
  induction x as [| xi x IH]; intros mean scale Hm Hs Hnz; [reflexivity |].
  destruct mean as [| m mean]; [discriminate |].
  destruct scale as [| s scale]; [discriminate |].
  inversion Hnz as [| ? ? Hs0 Hnz']; subst.
  simpl. f_equal.
  - field. exact Hs0.
  - apply IH; [simpl in Hm; lia | simpl in Hs; lia | exact Hnz'].
Qed.

Lemma transform_row_length (mean scale x : list R) :
  length mean = length x ->
  length scale = length x ->
  length (transform_row mean scale x) = length x.
Proof.
  revert mean scale.
  induction x as [| xi x IH]; intros mean scale Hm Hs; [reflexivity |].
  destruct mean as [| m mean]; [discriminate |].
  destruct scale as [| s scale]; [discriminate |].
  simpl. f_equal. apply IH; simpl in *; lia.
Qed.

Lemma width_ok_spec (sc : StandardScaler) (X : matrix) :
  width_ok sc X = true <-> rectangular (length (mean_ sc)) X.
Proof.
  unfold width_ok, rectangular. rewrite forallb_forall, List.Forall_forall.
  split; intros H row Hrow.
  - apply Nat.eqb_eq. apply H. exact Hrow.
  - apply Nat.eqb_eq. apply H. exact Hrow.
Qed.

(** C9.  For a scaler fitted on any data [D] and any array [X] whose rows have
    the scaler's width, [transform] succeeds and [inverse_transform] maps its
    result back to [X] itself.  No column is excluded: a zero standard
    deviation has been replaced by 1 in [scale_]. *)
Theorem scaler_round_trip (D X : matrix) (sc : StandardScaler) :
  fit D = Ok sc ->
  rectangular (length (mean_ sc)) X ->
  exists Z : matrix,
    transform sc X = Ok Z
    /\ inverse_transform sc Z = Ok X.
Proof.
  intros Hfit Hrect.
  apply fit_inv in Hfit. destruct Hfit as [-> [_ _]].
  destruct (column_stats_widths D) as [Hm Hs].
  pose proof (column_stats_scale_nonzero D) as Hnz.
  set (sc := column_stats D) in *.
  exists (map (transform_row (mean_ sc) (scale_ sc)) X). split.
  - unfold transform. apply width_ok_spec in Hrect. rewrite Hrect. reflexivity.
  - unfold inverse_transform.
    assert (Hw : width_ok sc (map (transform_row (mean_ sc) (scale_ sc)) X) = true).
    { apply width_ok_spec. unfold rectangular in *. rewrite List.Forall_forall in *.
      intros z Hz. apply in_map_iff in Hz. destruct Hz as [x [<- Hx]].
      specialize (Hrect x Hx).
      rewrite transform_row_length; [exact Hrect | lia | lia]. }
    rewrite Hw. f_equal. rewrite map_map.
    rewrite <- (map_id X) at 2. apply map_ext_in. intros x Hx.
    unfold rectangular in Hrect. rewrite List.Forall_forall in Hrect.
    specialize (Hrect x Hx).
    apply inverse_transform_row_cancel; [lia | lia | exact Hnz].
Qed.

Lemma scaler_round_trip_witness :
  exists Z : matrix,
    transform (column_stats [[1; 5]; [3; 5]]) [[7; 9]] = Ok Z
    /\ inverse_transform (column_stats [[1; 5]; [3; 5]]) Z = Ok [[7; 9]].
Proof.
  apply (scaler_round_trip [[1; 5]; [3; 5]] [[7; 9]]).
  - reflexivity.
  - repeat constructor.
Defined.

(** *** train_test_split: sizes and partition *)

Lemma n_test_ceil (n : nat) :
  (3 * n <= 10 * n_test n)%nat /\ (10 * n_test n < 3 * n + 10)%nat.
Proof.
  unfold n_test.
  pose proof (Nat.div_mod_eq (3 * n + 9) 10) as E.
  pose proof (Nat.mod_upper_bound (3 * n + 9) 10) as U.
  lia.
Qed.

Lemma n_test_lt (n : nat) : (2 <= n)%nat -> (n_test n < n)%nat.
Proof. intros H. pose proof (n_test_ceil n). lia. Qed.

Lemma n_train_plus_n_test (n : nat) : (2 <= n)%nat -> (n_train n + n_test n = n)%nat.
Proof. intros H. unfold n_train. pose proof (n_test_lt n H). lia. Qed.

Section SplitFacts.

Variable permutation : Z -> nat -> list nat.
Variable n : nat.
Hypothesis permutation_shuffles : Permutation (permutation random_state n) (seq 0 n).
Hypothesis two_samples : (2 <= n)%nat.

Lemma permutation_length : length (permutation random_state n) = n.
Proof.
  rewrite (Permutation_length permutation_shuffles). apply length_seq.
Qed.

Lemma ind_test_length : length (ind_test permutation n) = n_test n.
Proof.
  unfold ind_test. rewrite length_firstn, permutation_length.
  pose proof (n_test_lt n two_samples). lia.
Qed.

Lemma ind_train_is_tail :
  ind_train permutation n = skipn (n_test n) (permutation random_state n).
Proof.
  unfold ind_train. apply firstn_all2.
  rewrite length_skipn, permutation_length. unfold n_train. lia.
Qed.

Lemma ind_train_length : length (ind_train permutation n) = n_train n.
Proof.
  rewrite ind_train_is_tail, length_skipn, permutation_length. reflexivity.
Qed.

Lemma ind_test_ind_train :
  ind_test permutation n ++ ind_train permutation n = permutation random_state n.
Proof. rewrite ind_train_is_tail. unfold ind_test. apply firstn_skipn. Qed.

Lemma split_indices_ok :
  split_indices permutation n = Ok (ind_train permutation n, ind_test permutation n).
Proof.
  unfold split_indices.
  pose proof (n_train_plus_n_test n two_samples) as Hsum.
  pose proof (n_test_lt n two_samples) as Hlt.
  destruct (Nat.eqb_spec n 0) as [E | _]; [lia |].
  destruct (Nat.eqb_spec (n_train n) 0) as [E | _]; [lia | reflexivity].
Qed.

End SplitFacts.

(** C6, as the code behaves.  With a shuffle of the [n >= 2] sample indices,
    the split succeeds; its index lists depend on [n] and the seed only, so
    any two data sets of [n] samples are cut at the same indices; no index
    occurs twice or in both partitions, every index occurs in one of them,
    and the sizes add up to [n].  The test size is [0.3 n] rounded up, the
    train size [0.7 n] rounded down. *)
Theorem train_test_split_partition
    (permutation : Z -> nat -> list nat) (n : nat) :
  Permutation (permutation random_state n) (seq 0 n) ->
  (2 <= n)%nat ->
  (forall X y : matrix, length X = n -> length y = n ->
     train_test_split permutation X y
     = Ok (safe_indexing [] X (ind_train permutation n),
           safe_indexing [] X (ind_test permutation n),
           safe_indexing [] y (ind_train permutation n),
           safe_indexing [] y (ind_test permutation n)))
  /\ List.NoDup (ind_train permutation n ++ ind_test permutation n)
  /\ Permutation (ind_test permutation n ++ ind_train permutation n) (seq 0 n)
  /\ (length (ind_train permutation n) + length (ind_test permutation n) = n)%nat
  /\ (3 * n <= 10 * length (ind_test permutation n) < 3 * n + 10)%nat
  /\ (7 * n - 10 < 10 * length (ind_train permutation n) <= 7 * n)%nat.
Proof.
  intros Hperm Hn.
  pose proof (ind_test_length permutation n Hperm Hn) as Hte.
  pose proof (ind_train_length permutation n Hperm Hn) as Htr.
  pose proof (ind_test_ind_train permutation n Hperm Hn) as Happ.
  pose proof (n_train_plus_n_test n Hn) as Hsum.
  pose proof (n_test_ceil n) as Hceil.
  repeat split.
  - intros X y HX Hy. unfold train_test_split.
    rewrite HX, Hy, Nat.eqb_refl. simpl.
    rewrite (split_indices_ok permutation n Hn). reflexivity.
  - apply (Permutation_NoDup (l := seq 0 n)); [| apply List.seq_NoDup].
    rewrite <- Hperm, <- Happ. apply Permutation_app_comm.
  - rewrite Happ. exact Hperm.
  - lia.
  - lia.
  - lia.
  - lia.
  - lia.
Qed.

Lemma train_test_split_partition_witness :
  (forall X y : matrix, length X = 7%nat -> length y = 7%nat ->
     train_test_split (fun _ k => rev (seq 0 k)) X y
     = Ok (safe_indexing [] X (ind_train (fun _ k => rev (seq 0 k)) 7),
           safe_indexing [] X (ind_test (fun _ k => rev (seq 0 k)) 7),
           safe_indexing [] y (ind_train (fun _ k => rev (seq 0 k)) 7),
           safe_indexing [] y (ind_test (fun _ k => rev (seq 0 k)) 7)))
  /\ List.NoDup (ind_train (fun _ k => rev (seq 0 k)) 7 ++ ind_test (fun _ k => rev (seq 0 k)) 7)
  /\ Permutation (ind_test (fun _ k => rev (seq 0 k)) 7
                  ++ ind_train (fun _ k => rev (seq 0 k)) 7) (seq 0 7)
  /\ (length (ind_train (fun _ k => rev (seq 0 k)) 7)
      + length (ind_test (fun _ k => rev (seq 0 k)) 7) = 7)%nat
  /\ (3 * 7 <= 10 * length (ind_test (fun _ k => rev (seq 0 k)) 7) < 3 * 7 + 10)%nat
  /\ (7 * 7 - 10 < 10 * length (ind_train (fun _ k => rev (seq 0 k)) 7) <= 7 * 7)%nat.
Proof.
  apply (train_test_split_partition (fun _ k => rev (seq 0 k)) 7).
  - symmetry. apply Permutation_rev.
  - lia.
Defined.

(** C6, as stated, fails on the rounding: of 7 samples, [0.3 * 7 = 2.1] is
    rounded up to 3 test samples, which leaves 4 train samples, fewer than
    [0.7 * 7 = 4.9]; the fractional sample goes to the test partition. *)
Lemma train_test_split_rounds_towards_test :
  split_indices (fun _ k => seq 0 k) 7 = Ok ([3; 4; 5; 6], [0; 1; 2])%nat
  /\ (10 * length [3; 4; 5; 6] < 7 * 7)%nat
  /\ (3 * 7 < 10 * length [0; 1; 2])%nat.
Proof.
  split; [reflexivity | simpl; lia].
Qed.

(** *** load_and_preprocess_data: what the scalers are fitted on *)

Lemma rectangular_n_features (d : nat) (X : matrix) :
  rectangular d X -> X <> [] -> n_features X = d.
Proof.
  intros HX Hne. destruct X as [| row X']; [congruence |].
  inversion HX; subst. reflexivity.
Qed.

Lemma fit_ok (X : matrix) :
  X <> [] -> n_features X <> 0%nat -> fit X = Ok (column_stats X).
Proof.
  intros Hne Hd. unfold fit. destruct X as [| row X']; [congruence |].
  destruct (Nat.eqb_spec (n_features (row :: X')) 0) as [E | _]; [contradiction | reflexivity].
Qed.

Definition standardised (X : matrix) : matrix :=
  map (transform_row (mean_ (column_stats X)) (scale_ (column_stats X))) X.

Lemma fit_transform_ok (d : nat) (X : matrix) :
  rectangular d X -> X <> [] -> d <> 0%nat ->
  fit_transform X = Ok (column_stats X, standardised X).
Proof.
  intros HX Hne Hd.
  pose proof (rectangular_n_features d X HX Hne) as Hnf.
  unfold fit_transform. rewrite fit_ok; [| exact Hne | lia]. simpl.
  unfold transform.
  assert (Hw : width_ok (column_stats X) X = true).
  { apply width_ok_spec. destruct (column_stats_widths X) as [-> _].
    rewrite Hnf. exact HX. }
  rewrite Hw. reflexivity.
Qed.

Lemma load_and_preprocess_data_ok
    (permutation : Z -> nat -> list nat) (spectra targets : matrix) (n ds dt : nat) :
  length spectra = n -> length targets = n -> (2 <= n)%nat ->
  rectangular ds spectra -> ds <> 0%nat ->
  rectangular dt targets -> dt <> 0%nat ->
  load_and_preprocess_data permutation spectra targets
  = Ok {| X_train := safe_indexing [] (standardised spectra) (ind_train permutation n);
          X_test := safe_indexing [] (standardised spectra) (ind_test permutation n);
          y_train := safe_indexing [] (standardised targets) (ind_train permutation n);
          y_test := safe_indexing [] (standardised targets) (ind_test permutation n);
          scaler_spectra := column_stats spectra;
          scaler_targets := column_stats targets |}.
Proof.
  intros Hs Ht Hn HXs Hds HXt Hdt.
  assert (Hnes : spectra <> []) by (intros ->; simpl in Hs; lia).
  assert (Hnet : targets <> []) by (intros ->; simpl in Ht; lia).
  unfold load_and_preprocess_data.
  rewrite (fit_transform_ok ds spectra HXs Hnes Hds). simpl.
  rewrite (fit_transform_ok dt targets HXt Hnet Hdt). simpl.
  unfold train_test_split, standardised. rewrite !length_map, Hs, Ht, Nat.eqb_refl.
  simpl. rewrite (split_indices_ok permutation n Hn). reflexivity.
Qed.

(** C1, as the code behaves.  Both scalers are fitted before the split, on
    every row of the table: for a table of [n >= 2] samples the loader
    succeeds, the scalers it returns are the ones [fit] computes from the whole
    [spectra] and the whole [targets] arrays (means and standard deviations of
    the full columns), and both partitions are rows of the arrays standardised
    with these statistics. *)
Theorem scalers_fitted_on_whole_table
    (permutation : Z -> nat -> list nat) (spectra targets : matrix) (n ds dt : nat) :
  length spectra = n -> length targets = n -> (2 <= n)%nat ->
  rectangular ds spectra -> ds <> 0%nat ->
  rectangular dt targets -> dt <> 0%nat ->
  exists r : Loaded,
    load_and_preprocess_data permutation spectra targets = Ok r
    /\ fit spectra = Ok (scaler_spectra r)
    /\ fit targets = Ok (scaler_targets r)
    /\ mean_ (scaler_spectra r) = map (fun j => np_mean (column j spectra)) (seq 0 ds)
    /\ scale_ (scaler_spectra r)
       = map (fun j => handle_zeros_in_scale (np_std (column j spectra))) (seq 0 ds)
    /\ mean_ (scaler_targets r) = map (fun j => np_mean (column j targets)) (seq 0 dt)
    /\ scale_ (scaler_targets r)
       = map (fun j => handle_zeros_in_scale (np_std (column j targets))) (seq 0 dt)
    /\ X_train r = safe_indexing [] (standardised spectra) (ind_train permutation n)
    /\ X_test r = safe_indexing [] (standardised spectra) (ind_test permutation n)
    /\ y_train r = safe_indexing [] (standardised targets) (ind_train permutation n)
    /\ y_test r = safe_indexing [] (standardised targets) (ind_test permutation n).
Proof.
  intros Hs Ht Hn HXs Hds HXt Hdt.
  assert (Hnes : spectra <> []) by (intros ->; simpl in Hs; lia).
  assert (Hnet : targets <> []) by (intros ->; simpl in Ht; lia).
  pose proof (rectangular_n_features ds spectra HXs Hnes) as Hfs.
  pose proof (rectangular_n_features dt targets HXt Hnet) as Hft.
  eexists. split.
  - apply (load_and_preprocess_data_ok permutation spectra targets n ds dt); assumption.
  - cbn [scaler_spectra scaler_targets X_train X_test y_train y_test].
    split; [apply fit_ok; [exact Hnes | lia] |].
    split; [apply fit_ok; [exact Hnet | lia] |].
    unfold column_stats. cbn [mean_ scale_]. rewrite Hfs, Hft.
    repeat split; reflexivity.
Qed.

Lemma scalers_fitted_on_whole_table_witness :
  exists r : Loaded,
    load_and_preprocess_data (fun _ _ => [0; 1]%nat) [[1]; [2]] [[1]; [0]] = Ok r
    /\ fit [[1]; [2]] = Ok (scaler_spectra r)
    /\ fit [[1]; [0]] = Ok (scaler_targets r)
    /\ mean_ (scaler_spectra r) = map (fun j => np_mean (column j [[1]; [2]])) (seq 0 1)
    /\ scale_ (scaler_spectra r)
       = map (fun j => handle_zeros_in_scale (np_std (column j [[1]; [2]]))) (seq 0 1)
    /\ mean_ (scaler_targets r) = map (fun j => np_mean (column j [[1]; [0]])) (seq 0 1)
    /\ scale_ (scaler_targets r)
       = map (fun j => handle_zeros_in_scale (np_std (column j [[1]; [0]]))) (seq 0 1)
    /\ X_train r = safe_indexing [] (standardised [[1]; [2]]) (ind_train (fun _ _ => [0; 1]%nat) 2)
    /\ X_test r = safe_indexing [] (standardised [[1]; [2]]) (ind_test (fun _ _ => [0; 1]%nat) 2)
    /\ y_train r = safe_indexing [] (standardised [[1]; [0]]) (ind_train (fun _ _ => [0; 1]%nat) 2)
    /\ y_test r = safe_indexing [] (standardised [[1]; [0]]) (ind_test (fun _ _ => [0; 1]%nat) 2).
Proof.
  apply (scalers_fitted_on_whole_table (fun _ _ => [0; 1]%nat) [[1]; [2]] [[1]; [0]] 2 1 1);
    try reflexivity; try lia; repeat constructor.
Defined.

Lemma np_mean_pair (a b : R) : np_mean [a; b] = (a + b) / 2.
Proof. unfold np_mean. simpl. field. Qed.

(** C1, as stated, fails.  Take a table of two samples; whichever way the
    shuffle orders them, one is the test sample.  Changing the target of that
    test sample alone, with the train sample untouched, changes the mean the
    target scaler is fitted with. *)
Lemma test_rows_influence_fitted_statistics :
  (exists rA rB : Loaded,
     split_indices (fun _ _ => [0; 1]%nat) 2 = Ok ([1], [0])%nat
     /\ load_and_preprocess_data (fun _ _ => [0; 1]%nat) [[1]; [2]] [[1]; [0]] = Ok rA
     /\ load_and_preprocess_data (fun _ _ => [0; 1]%nat) [[1]; [2]] [[3]; [0]] = Ok rB
     /\ mean_ (scaler_targets rA) = [1 / 2]
     /\ mean_ (scaler_targets rB) = [3 / 2])
  /\ (exists rA rB : Loaded,
     split_indices (fun _ _ => [1; 0]%nat) 2 = Ok ([0], [1])%nat
     /\ load_and_preprocess_data (fun _ _ => [1; 0]%nat) [[1]; [2]] [[0]; [1]] = Ok rA
     /\ load_and_preprocess_data (fun _ _ => [1; 0]%nat) [[1]; [2]] [[0]; [3]] = Ok rB
     /\ mean_ (scaler_targets rA) = [1 / 2]
     /\ mean_ (scaler_targets rB) = [3 / 2]).
Proof.
  split.
  - eexists. eexists. split; [reflexivity |].
    split; [apply (load_and_preprocess_data_ok _ _ _ 2 1 1);
            try reflexivity; try lia; repeat constructor |].
    split; [apply (load_and_preprocess_data_ok _ _ _ 2 1 1);
            try reflexivity; try lia; repeat constructor |].
    cbn [scaler_targets]. unfold column_stats.
    cbn [mean_ n_features length seq map column nth].
    rewrite !np_mean_pair. split; f_equal; lra.
  - eexists. eexists. split; [reflexivity |].
    split; [apply (load_and_preprocess_data_ok _ _ _ 2 1 1);
            try reflexivity; try lia; repeat constructor |].
    split; [apply (load_and_preprocess_data_ok _ _ _ 2 1 1);
            try reflexivity; try lia; repeat constructor |].
    cbn [scaler_targets]. unfold column_stats.
    cbn [mean_ n_features length seq map column nth].
    rewrite !np_mean_pair. split; f_equal; lra.
Qed.

(** *** SNV removes offset and scale *)












(** *** What fit_transform does to the columns *)

Lemma nth_map_seq {A : Type} (g : nat -> A) (n j : nat) (dflt : A) :
  (j < n)%nat -> nth j (map g (seq 0 n)) dflt = g j.
Proof.
  intros Hj. rewrite (nth_indep _ dflt (g 0%nat)) by (rewrite length_map, length_seq; lia).
  rewrite map_nth, seq_nth by lia. reflexivity.
Qed.

Lemma nth_transform_row (mean scale x : list R) (j : nat) :
  length mean = length x -> length scale = length x -> (j < length x)%nat ->
  nth j (transform_row mean scale x) 0 = (nth j x 0 - nth j mean 0) / nth j scale 0.
Proof.
  revert mean scale j. induction x as [| xi x IH]; intros mean scale j Hm Hs Hj;
    [simpl in Hj; lia |].
  destruct mean as [| m mean]; [discriminate |].
  destruct scale as [| s scale]; [discriminate |].
  destruct j as [| j]; [reflexivity |].
  simpl. apply IH; simpl in *; lia.
Qed.

Lemma column_standardised (X : matrix) (d j : nat) :
  rectangular d X -> X <> [] -> (j < d)%nat ->
  column j (standardised X)
  = map (fun x => (x - np_mean (column j X))
                  / handle_zeros_in_scale (np_std (column j X))) (column j X).
Proof.
  intros HX Hne Hj.
  pose proof (rectangular_n_features d X HX Hne) as Hnf.
  destruct (column_stats_widths X) as [Hm Hs]. rewrite Hnf in Hm, Hs.
  unfold column at 1 4, standardised. rewrite !map_map.
  apply map_ext_in. intros row Hrow.
  unfold rectangular in HX. rewrite List.Forall_forall in HX. specialize (HX row Hrow).
  rewrite nth_transform_row by lia.
  unfold column_stats. cbn [mean_ scale_]. rewrite Hnf.
  rewrite !nth_map_seq by exact Hj. reflexivity.
Qed.

Lemma np_mean_zeros (l : list R) : (forall x, In x l -> x = 0) -> np_mean l = 0.
Proof.
  intros H. unfold np_mean.
  assert (Hs : np_sum l = 0).
  { induction l as [| x l IH]; [reflexivity |]. simpl.
    rewrite (H x) by (left; reflexivity).
    rewrite IH; [lra | intros y Hy; apply H; right; exact Hy]. }
  rewrite Hs. lra.
Qed.

(** The array returned by [fit_transform] is standardised over all of its
    rows: every column has mean 0; a column that varies has standard
    deviation 1, and a constant column becomes zero throughout.  (These are
    statistics of the whole table, not of either partition cut from it.) *)
Theorem fit_transform_standardises_columns (X : matrix) (d j : nat) :
  rectangular d X -> X <> [] -> (j < d)%nat ->
  exists (sc : StandardScaler) (Z : matrix),
    fit_transform X = Ok (sc, Z)
    /\ np_mean (column j Z) = 0
    /\ (np_std (column j X) <> 0 -> np_std (column j Z) = 1)
    /\ (np_std (column j X) = 0 -> forall z, In z (column j Z) -> z = 0).
Proof.
  intros HX Hne Hj. exists (column_stats X), (standardised X).
  split; [apply (fit_transform_ok d); [exact HX | exact Hne | lia] |].
  rewrite (column_standardised X d j HX Hne Hj).
  set (col := column j X).
  destruct (Req_EM_T (np_std col) 0) as [H0 | Hnz].
  - assert (Hz : forall z, In z (map (fun x => (x - np_mean col)
                                      / handle_zeros_in_scale (np_std col)) col) ->
                    z = 0).
    { intros z Hzin. apply in_map_iff in Hzin. destruct Hzin as [x [<- Hx]].
      rewrite (np_std_zero_constant col H0 x Hx).
      unfold handle_zeros_in_scale. destruct (Req_EM_T (np_std col) 0); [field | contradiction]. }
    split; [apply np_mean_zeros; exact Hz |].
    split; [intros Hc; contradiction | intros _; exact Hz].
  - assert (Hsc : handle_zeros_in_scale (np_std col) = np_std col).
    { unfold handle_zeros_in_scale. destruct (Req_EM_T (np_std col) 0);
        [contradiction | reflexivity]. }
    rewrite Hsc. change (map (fun x => (x - np_mean col) / np_std col) col)
      with (standardise col).
    split; [apply standardise_mean; exact Hnz |].
    split; [| intros Hc; contradiction].
    intros _. unfold np_std at 1. rewrite standardise_var by exact Hnz. apply sqrt_1.
Qed.

Lemma fit_transform_standardises_columns_witness :
  exists (sc : StandardScaler) (Z : matrix),
    fit_transform [[1; 5]; [3; 5]] = Ok (sc, Z)
    /\ np_mean (column 1 Z) = 0
    /\ (np_std (column 1 [[1; 5]; [3; 5]]) <> 0 -> np_std (column 1 Z) = 1)
    /\ (np_std (column 1 [[1; 5]; [3; 5]]) = 0 -> forall z, In z (column 1 Z) -> z = 0).
Proof.
  apply (fit_transform_standardises_columns [[1; 5]; [3; 5]] 2 1).
  - repeat constructor.
  - discriminate.
  - lia.
Defined.

(** *** The other round trip *)

Lemma transform_row_cancel (mean scale z : list R) :
  length mean = length z ->
  length scale = length z ->
  Forall (fun s => s <> 0) scale ->
  transform_row mean scale (inverse_transform_row mean scale z) = z.
Proof.
  revert mean scale.
  induction z as [| zi z IH]; intros mean scale Hm Hs Hnz; [reflexivity |].
  destruct mean as [| m mean]; [discriminate |].
  destruct scale as [| s scale]; [discriminate |].
  inversion Hnz as [| ? ? Hs0 Hnz']; subst.
  simpl. f_equal.
  - field. exact Hs0.
  - apply IH; [simpl in Hm; lia | simpl in Hs; lia | exact Hnz'].
Qed.

Lemma inverse_transform_row_length (mean scale z : list R) :
  length mean = length z ->
  length scale = length z ->
  length (inverse_transform_row mean scale z) = length z.
Proof.
  revert mean scale.
  induction z as [| zi z IH]; intros mean scale Hm Hs; [reflexivity |].
  destruct mean as [| m mean]; [discriminate |].
  destruct scale as [| s scale]; [discriminate |].
  simpl. f_equal. apply IH; simpl in *; lia.
Qed.

(** Standardised values, such as the model's predictions, that are taken to
    physical units by [inverse_transform] come back unchanged under
    [transform]: on arrays of its width a fitted scaler is a bijection. *)
Theorem scaler_inverse_then_transform (D Z : matrix) (sc : StandardScaler) :
  fit D = Ok sc ->
  rectangular (length (mean_ sc)) Z ->
  exists X : matrix,
    inverse_transform sc Z = Ok X
    /\ transform sc X = Ok Z.
Proof.
  intros Hfit Hrect.
  apply fit_inv in Hfit. destruct Hfit as [-> [_ _]].
  destruct (column_stats_widths D) as [Hm Hs].
  pose proof (column_stats_scale_nonzero D) as Hnz.
  set (sc := column_stats D) in *.
  exists (map (inverse_transform_row (mean_ sc) (scale_ sc)) Z). split.
  - unfold inverse_transform. apply width_ok_spec in Hrect. rewrite Hrect. reflexivity.
  - unfold transform.
    assert (Hw : width_ok sc (map (inverse_transform_row (mean_ sc) (scale_ sc)) Z) = true).
    { apply width_ok_spec. unfold rectangular in *. rewrite List.Forall_forall in *.
      intros x Hx. apply in_map_iff in Hx. destruct Hx as [z [<- Hz]].
      specialize (Hrect z Hz).
      rewrite inverse_transform_row_length; [exact Hrect | lia | lia]. }
    rewrite Hw. f_equal. rewrite map_map.
    rewrite <- (map_id Z) at 2. apply map_ext_in. intros z Hz.
    unfold rectangular in Hrect. rewrite List.Forall_forall in Hrect.
    specialize (Hrect z Hz).
    apply transform_row_cancel; [lia | lia | exact Hnz].
Qed.

Lemma scaler_inverse_then_transform_witness :
  exists X : matrix,
    inverse_transform (column_stats [[1; 5]; [3; 5]]) [[0; 2]] = Ok X
    /\ transform (column_stats [[1; 5]; [3; 5]]) X = Ok [[0; 2]].
Proof.
  apply (scaler_inverse_then_transform [[1; 5]; [3; 5]] [[0; 2]]).
  - reflexivity.
  - repeat constructor.
Defined.

(** *** Tables that are too small *)

Lemma fit_transform_raises (X : matrix) (e : exn) :
  fit_transform X = Raise e -> e = ValueError.
Proof.
  unfold fit_transform, fit, transform.
  destruct X as [| row X']; [intros [= <-]; reflexivity |].
  destruct (Nat.eqb (n_features (row :: X')) 0); [intros [= <-]; reflexivity |].
  cbn [bind]. destruct (width_ok (column_stats (row :: X')) (row :: X'));
    cbn [bind]; [discriminate | intros [= <-]; reflexivity].
Qed.

Lemma fit_transform_length (X Z : matrix) (sc : StandardScaler) :
  fit_transform X = Ok (sc, Z) -> length Z = length X.
Proof.
  unfold fit_transform, fit, transform.
  destruct X as [| row X']; [discriminate |].
  destruct (Nat.eqb (n_features (row :: X')) 0); [discriminate |].
  cbn [bind]. destruct (width_ok (column_stats (row :: X')) (row :: X'));
    cbn [bind]; [| discriminate].
  intros [= _ <-]. simpl. f_equal. apply length_map.
Qed.

Lemma train_test_split_small (permutation : Z -> nat -> list nat) (X y : matrix) :
  (length X < 2)%nat -> train_test_split permutation X y = Raise ValueError.
Proof.
  intros Hn. unfold train_test_split.
  destruct (Nat.eqb (length X) (length y)); [| reflexivity]. simpl.
  unfold split_indices.
  destruct (length X) as [| [| n]]; [reflexivity | reflexivity | lia].
Qed.

(** A table of fewer than two samples is always rejected with a
    [ValueError], whatever its content: an empty one by the scaler, a single
    sample by the split, which would leave no train sample. *)
Theorem load_rejects_small_tables
    (permutation : Z -> nat -> list nat) (spectra targets : matrix) :
  (length spectra < 2)%nat ->
  load_and_preprocess_data permutation spectra targets = Raise ValueError.
Proof.
  intros Hn. unfold load_and_preprocess_data.
  destruct (fit_transform spectra) as [[sc Zs] | e] eqn:Hs.
  - cbn [bind]. destruct (fit_transform targets) as [[sct Zt] | e] eqn:Ht.
    + cbn [bind]. rewrite train_test_split_small; [reflexivity |].
      rewrite (fit_transform_length _ _ _ Hs). exact Hn.
    + cbn [bind]. rewrite (fit_transform_raises _ _ Ht). reflexivity.
  - cbn [bind]. rewrite (fit_transform_raises _ _ Hs). reflexivity.
Qed.

Lemma load_rejects_small_tables_witness :
  load_and_preprocess_data (fun _ k => seq 0 k) [[1; 2; 3]] [[4; 5; 6; 7]]
  = Raise ValueError.
Proof.
  apply (load_rejects_small_tables (fun _ k => seq 0 k) [[1; 2; 3]] [[4; 5; 6; 7]]).
  simpl. lia.
Defined.

End Preprocess.

(** ** EnhancedCNNModel: the shapes of the forward pass *)

Module Model.

(** A tensor is represented by its shape; the layers are the shape
    transformers PyTorch documents for them, with the size checks they make
    before computing. *)
Abbreviation shape := (list nat).

(** [x.unsqueeze(1)] *)
Definition unsqueeze1 (x : shape) : result shape :=
  match x with
  | [] => Raise RuntimeError
  | d0 :: rest => Ok (d0 :: 1 :: rest)
  end.

(** [nn.Conv1d(c_in, c_out, kernel_size=k, stride=1, padding=p)] on a batched
    input [(B, C, L)]: the padded length must hold one kernel. *)
Definition conv1d (c_in c_out k p : nat) (x : shape) : result shape :=
  match x with
  | [B; C; L] =>
      if negb (Nat.eqb C c_in) then Raise RuntimeError
      else if Nat.ltb (L + 2 * p) k then Raise RuntimeError
      else Ok [B; c_out; L + 2 * p - (k - 1) - 1 + 1]
  | _ => Raise RuntimeError
  end.

(** [nn.BatchNorm1d(num_features)]: in training mode the batch statistics
    need more than one value per channel. *)
Definition batch_norm1d (training : bool) (num_features : nat) (x : shape)
  : result shape :=
  match x with
  | [B; C] =>
      if negb (Nat.eqb C num_features) then Raise RuntimeError
      else if training && Nat.leb B 1 then Raise ValueError
      else Ok x
  | [B; C; L] =>
      if negb (Nat.eqb C num_features) then Raise RuntimeError
      else if training && Nat.leb (B * L) 1 then Raise ValueError
      else Ok x
  | _ => Raise ValueError
  end.

(** [nn.LeakyReLU] and [nn.Dropout] keep the shape. *)
Definition leaky_relu (x : shape) : result shape := Ok x.

Definition dropout (x : shape) : result shape := Ok x.

(** [nn.MaxPool1d(kernel_size=k)]: stride [k], no padding; an output of
    length zero is rejected. *)
Definition max_pool1d (k : nat) (x : shape) : result shape :=
  match x with
  | [B; C; L] =>
      if Nat.ltb L k then Raise RuntimeError
      else Ok [B; C; (L - k) / k + 1]
  | _ => Raise RuntimeError
  end.

(** [x.view(x.size(0), -1)]: the second extent cannot be inferred for an
    empty batch. *)
Definition view_flat (x : shape) : result shape :=
  match x with
  | [B; C; L] =>
      if Nat.eqb B 0 then Raise RuntimeError
      else Ok [B; C * L]
  | _ => Raise RuntimeError
  end.

(** [nn.Linear(f_in, f_out)] on [(B, F)]. *)
Definition linear (f_in f_out : nat) (x : shape) : result shape :=
  match x with
  | [B; F] =>
      if Nat.eqb F f_in then Ok [B; f_out] else Raise RuntimeError
  | _ => Raise RuntimeError
  end.

Record EnhancedCNNModel : Type := {
  fc_input_size : nat;
  output_size : nat;
  training : bool
}.

(** [__init__]: a freshly built module is in training mode. *)
Definition init (input_size out_size : nat) : EnhancedCNNModel :=
  {| fc_input_size := 128 * (input_size / 2);
     output_size := out_size;
     training := true |}.

(** [model.train()] and [model.eval()] *)
Definition train (m : EnhancedCNNModel) : EnhancedCNNModel :=
  {| fc_input_size := fc_input_size m; output_size := output_size m; training := true |}.

Definition eval (m : EnhancedCNNModel) : EnhancedCNNModel :=
  {| fc_input_size := fc_input_size m; output_size := output_size m; training := false |}.

(** [forward], up to and including the flattening. *)
Definition features (m : EnhancedCNNModel) (x : shape) : result shape :=
  let* x := unsqueeze1 x in
  let* x := conv1d 1 32 11 5 x in
  let* x := batch_norm1d (training m) 32 x in
  let* x := leaky_relu x in
  let* x := dropout x in
  let* x := conv1d 32 64 7 3 x in
  let* x := batch_norm1d (training m) 64 x in
  let* x := leaky_relu x in
  let* x := dropout x in
  let* x := conv1d 64 128 5 2 x in
  let* x := batch_norm1d (training m) 128 x in
  let* x := leaky_relu x in
  let* x := max_pool1d 2 x in
  view_flat x.

(** [forward], from the first fully connected layer on. *)
Definition head (m : EnhancedCNNModel) (x : shape) : result shape :=
  let* x := linear (fc_input_size m) 256 x in
  let* x := batch_norm1d (training m) 256 x in
  let* x := leaky_relu x in
  let* x := dropout x in
  let* x := linear 256 128 x in
  let* x := batch_norm1d (training m) 128 x in
  let* x := leaky_relu x in
  let* x := dropout x in
  linear 128 (output_size m) x.

Definition forward (m : EnhancedCNNModel) (x : shape) : result shape :=
  let* x := features m x in
  head m x.

Example forward_eval_700 : forward (eval (init 700 4)) [8; 700] = Ok [8; 4].
Proof. reflexivity. Qed.

Example forward_odd_width : features (init 7 4) [8; 7] = Ok [8; 384].
Proof. reflexivity. Qed.

(** *** Layer by layer *)

Lemma conv1d_same_length (c_in c_out k p B L : nat) :
  k = (2 * p + 1)%nat ->
  (1 <= L)%nat ->
  conv1d c_in c_out k p [B; c_in; L] = Ok [B; c_out; L].
Proof.
  intros Hk HL. unfold conv1d. rewrite Nat.eqb_refl. simpl negb. cbv iota.
  destruct (Nat.ltb_spec (L + 2 * p) k) as [Hlt | _]; [lia |].
  replace (L + 2 * p - (k - 1) - 1 + 1)%nat with L by lia. reflexivity.
Qed.

Lemma batch_norm1d_conv (training : bool) (c B L : nat) :
  (1 <= L)%nat ->
  (training = true -> 2 <= B)%nat ->
  batch_norm1d training c [B; c; L] = Ok [B; c; L].
Proof.
  intros HL HB. unfold batch_norm1d. rewrite Nat.eqb_refl. simpl negb. cbv iota.
  destruct training; [| reflexivity].
  specialize (HB eq_refl).
  destruct (Nat.leb_spec (B * L) 1) as [Hle | _]; [nia | reflexivity].
Qed.

Lemma batch_norm1d_fc (training : bool) (c B : nat) :
  (training = true -> 2 <= B)%nat ->
  batch_norm1d training c [B; c] = Ok [B; c].
Proof.
  intros HB. unfold batch_norm1d. rewrite Nat.eqb_refl. simpl negb. cbv iota.
  destruct training; [| reflexivity].
  specialize (HB eq_refl).
  destruct (Nat.leb_spec B 1) as [Hle | _]; [lia | reflexivity].
Qed.

Lemma max_pool1d_halves (B C L : nat) :
  (2 <= L)%nat -> max_pool1d 2 [B; C; L] = Ok [B; C; L / 2].
Proof.
  intros HL. unfold max_pool1d.
  destruct (Nat.ltb_spec L 2) as [Hlt | _]; [lia |].
  replace (L / 2)%nat with ((L - 2) / 2 + 1)%nat; [reflexivity |].
  replace L with (L - 2 + 1 * 2)%nat at 2 by lia.
  rewrite Nat.div_add by lia. reflexivity.
Qed.

Lemma view_flat_ok (B C L : nat) :
  (1 <= B)%nat -> view_flat [B; C; L] = Ok [B; C * L].
Proof.
  intros HB. unfold view_flat.
  destruct (Nat.eqb_spec B 0) as [E | _]; [lia | reflexivity].
Qed.

Lemma linear_ok (f_in f_out B : nat) : linear f_in f_out [B; f_in] = Ok [B; f_out].
Proof. unfold linear. rewrite Nat.eqb_refl. reflexivity. Qed.

Lemma features_shape (m : EnhancedCNNModel) (B N : nat) :
  (1 <= B)%nat -> (2 <= N)%nat -> (training m = true -> 2 <= B)%nat ->
  features m [B; N] = Ok [B; 128 * (N / 2)].
Proof.
  intros HB HN Htr. unfold features. cbn [unsqueeze1 bind].
  rewrite (conv1d_same_length 1 32 11 5 B N) by lia. cbn [bind].
  rewrite batch_norm1d_conv by (assumption || lia). cbn [bind leaky_relu dropout].
  rewrite (conv1d_same_length 32 64 7 3 B N) by lia. cbn [bind].
  rewrite batch_norm1d_conv by (assumption || lia). cbn [bind leaky_relu dropout].
  rewrite (conv1d_same_length 64 128 5 2 B N) by lia. cbn [bind].
  rewrite batch_norm1d_conv by (assumption || lia). cbn [bind leaky_relu].
  rewrite max_pool1d_halves by lia. cbn [bind].
  apply view_flat_ok. exact HB.
Qed.

Lemma head_shape (m : EnhancedCNNModel) (B : nat) :
  (training m = true -> 2 <= B)%nat ->
  head m [B; fc_input_size m] = Ok [B; output_size m].
Proof.
  intros Htr. unfold head.
  rewrite linear_ok. cbn [bind].
  rewrite batch_norm1d_fc by assumption. cbn [bind leaky_relu dropout].
  rewrite linear_ok. cbn [bind].
  rewrite batch_norm1d_fc by assumption. cbn [bind leaky_relu dropout].
  apply linear_ok.
Qed.

(** C7, as the code behaves.  For a model built for [input_size >= 2] and put
    in either mode, a batch of [B >= 1] spectra of that width ([B >= 2] in
    training mode) is flattened to [128 * (input_size / 2)] features per
    sample and comes out of [forward] with shape [(B, output_size)]. *)
Theorem forward_shape (input_size out_size B : nat) (m : EnhancedCNNModel) :
  (m = train (init input_size out_size) \/ m = eval (init input_size out_size)) ->
  (1 <= B)%nat ->
  (2 <= input_size)%nat ->
  (training m = true -> 2 <= B)%nat ->
  features m [B; input_size] = Ok [B; 128 * (input_size / 2)]
  /\ forward m [B; input_size] = Ok [B; out_size].
Proof.
  intros Hm HB HN Htr.
  assert (Hfc : fc_input_size m = (128 * (input_size / 2))%nat)
    by (destruct Hm as [-> | ->]; reflexivity).
  assert (Hout : output_size m = out_size)
    by (destruct Hm as [-> | ->]; reflexivity).
  pose proof (features_shape m B input_size HB HN Htr) as Hf.
  split; [exact Hf |].
  unfold forward. rewrite Hf. cbn [bind].
  rewrite <- Hfc, <- Hout. apply head_shape. exact Htr.
Qed.

Lemma forward_shape_witness :
  features (train (init 700 4)) [8; 700] = Ok [8; 128 * (700 / 2)]
  /\ forward (train (init 700 4)) [8; 700] = Ok [8; 4].
Proof.
  apply (forward_shape 700 4 8 (train (init 700 4))).
  - left. reflexivity.
  - lia.
  - lia.
  - intros _. lia.
Defined.

(** C7, as stated, fails for three kinds of batch: a single sample in training
    mode (the batch normalisation after [fc1] has one value per channel), a
    one-channel spectrum (nothing is left after pooling) and an empty batch
    (the flattened width cannot be inferred). *)
Lemma forward_rejects_batches :
  forward (train (init 700 4)) [1; 700] = Raise ValueError
  /\ forward (eval (init 1 4)) [8; 1] = Raise RuntimeError
  /\ forward (eval (init 700 4)) [0; 700] = Raise RuntimeError.
Proof. repeat split; vm_compute; reflexivity. Qed.

(** *** Widths other than the configured one *)

Lemma head_mismatch (m : EnhancedCNNModel) (B F : nat) :
  F <> fc_input_size m -> head m [B; F] = Raise RuntimeError.
Proof.
  intros HF. unfold head, linear.
  destruct (Nat.eqb_spec F (fc_input_size m)) as [E | _]; [contradiction | reflexivity].
Qed.

(** Only the half of the width is fixed by the model: a batch whose spectra
    have [N] channels passes a model built for [input_size] exactly when
    [N / 2 = input_size / 2], so a model built for an odd width also takes the
    even width below it; any other width is rejected by the first fully
    connected layer. *)
Theorem forward_width (input_size out_size B N : nat) (m : EnhancedCNNModel) :
  (m = train (init input_size out_size) \/ m = eval (init input_size out_size)) ->
  (1 <= B)%nat ->
  (2 <= N)%nat ->
  (training m = true -> 2 <= B)%nat ->
  forward m [B; N]
  = if Nat.eqb (N / 2) (input_size / 2) then Ok [B; out_size] else Raise RuntimeError.
Proof.
  intros Hm HB HN Htr.
  assert (Hfc : fc_input_size m = (128 * (input_size / 2))%nat)
    by (destruct Hm as [-> | ->]; reflexivity).
  assert (Hout : output_size m = out_size)
    by (destruct Hm as [-> | ->]; reflexivity).
  unfold forward. rewrite (features_shape m B N HB HN Htr). cbn [bind].
  destruct (Nat.eqb_spec (N / 2) (input_size / 2)) as [E | Hneq].
  - rewrite E, <- Hfc, <- Hout. apply head_shape. exact Htr.
  - apply head_mismatch. rewrite Hfc. lia.
Qed.

Lemma forward_width_witness :
  forward (eval (init 701 4)) [8; 700]
  = if Nat.eqb (700 / 2) (701 / 2) then Ok [8; 4] else Raise RuntimeError.
Proof.
  apply (forward_width 701 4 8 700 (eval (init 701 4))).
  - right. reflexivity.
  - lia.
  - lia.
  - intros H. discriminate H.
Defined.

(** *** A batch of one sample in training mode *)

Lemma batch_norm1d_conv_single (c L : nat) :
  (2 <= L)%nat -> batch_norm1d true c [1; c; L] = Ok [1; c; L].
Proof.
  intros HL. unfold batch_norm1d. rewrite Nat.eqb_refl. simpl negb. cbv iota.
  cbn [andb].
  destruct (Nat.leb_spec (1 * L) 1) as [Hle | _]; [lia | reflexivity].
Qed.

Lemma forward_single_training (input_size out_size : nat) :
  (2 <= input_size)%nat ->
  forward (train (init input_size out_size)) [1; input_size] = Raise ValueError.
Proof.
  intros HN. unfold forward, features. cbn [unsqueeze1 bind train init training].
  rewrite (conv1d_same_length 1 32 11 5 1 input_size) by lia. cbn [bind].
  rewrite batch_norm1d_conv_single by lia. cbn [bind leaky_relu dropout].
  rewrite (conv1d_same_length 32 64 7 3 1 input_size) by lia. cbn [bind].
  rewrite batch_norm1d_conv_single by lia. cbn [bind leaky_relu dropout].
  rewrite (conv1d_same_length 64 128 5 2 1 input_size) by lia. cbn [bind].
  rewrite batch_norm1d_conv_single by lia. cbn [bind leaky_relu].
  rewrite max_pool1d_halves by lia. cbn [bind].
  rewrite view_flat_ok by lia. cbn [bind].
  unfold head. cbn [fc_input_size]. rewrite linear_ok. cbn [bind]. reflexivity.
Qed.

Lemma forward_training_batch (input_size out_size B : nat) :
  (2 <= input_size)%nat -> (2 <= B)%nat ->
  forward (train (init input_size out_size)) [B; input_size] = Ok [B; out_size].
Proof.
  intros HN HB. unfold forward.
  rewrite (features_shape _ B input_size) by (try lia; intros _; lia).
  cbn [bind].
  change (128 * (input_size / 2))%nat
    with (fc_input_size (train (init input_size out_size))).
  apply (head_shape (train (init input_size out_size)) B). intros _. lia.
Qed.

End Model.

(** ** train_model: epochs, early stopping, best checkpoint *)

Module Trainer.

Import Stdlib.Floats.Floats.
Import Stdlib.Numbers.Cyclic.Int63.Uint63.

(** [float(n)] for a Python integer. *)
Definition float_of_nat (n : nat) : float := of_uint63 (of_Z (Z.of_nat n)).

Definition patience : nat := 20.

Section TrainModel.

(** The model's parameters ([state_dict]), the state of the optimizer and of
    the learning-rate scheduler, and a mini-batch. *)
Variables (Model Optim Batch : Type).

(** One pass of the inner loop body: gradients zeroed, forward pass, loss,
    backward pass, optimizer step.  It returns the updated parameters and
    optimizer, and [loss.item()]. *)
Variable train_step : Model -> Optim -> Batch -> Model * Optim * float.

(** [scheduler.step(epoch_loss)], when a scheduler is given. *)
Variable scheduler : option (Optim -> float -> Optim).

(** The batches the loader yields in each epoch (it reshuffles per epoch). *)
Variable train_loader : nat -> list Batch.

(** The variables of [train_model] that live across epochs, and the file
    [best_model.pth]. *)
Record state : Type := {
  model : Model;
  optim : Optim;
  history : list float;
  best_loss : float;
  counter : nat;
  best_model_pth : option Model
}.

Fixpoint run_batches (m : Model) (o : Optim) (running_loss : float)
    (batches : list Batch) : Model * Optim * float :=
  match batches with
  | [] => (m, o, running_loss)
  | b :: rest =>
      let '(m', o', loss) := train_step m o b in
      run_batches m' o' (running_loss + loss)%float rest
  end.

Definition scheduler_step (o : Optim) (epoch_loss : float) : Optim :=
  match scheduler with
  | Some step => step o epoch_loss
  | None => o
  end.

(** One iteration of the epoch loop; the boolean tells whether [break] was
    reached.  Dividing by the length of an empty loader raises. *)
Definition epoch_body (epoch : nat) (st : state) : result (state * bool) :=
  let batches := train_loader epoch in
  let '(m, o, running_loss) := run_batches (model st) (optim st) 0%float batches in
  if Nat.eqb (length batches) 0 then Raise ZeroDivisionError
  else
    let epoch_loss := (running_loss / float_of_nat (length batches))%float in
    let o' := scheduler_step o epoch_loss in
    if (epoch_loss <? best_loss st)%float then
      Ok ({| model := m; optim := o';
             history := history st ++ [epoch_loss];
             best_loss := epoch_loss;
             counter := 0;
             best_model_pth := Some m |}, false)
    else
      Ok ({| model := m; optim := o';
             history := history st ++ [epoch_loss];
             best_loss := best_loss st;
             counter := S (counter st);
             best_model_pth := best_model_pth st |},
          Nat.leb patience (S (counter st))).

(** [for epoch in range(epochs)], with [remaining] iterations left. *)
Fixpoint epochs_loop (remaining epoch : nat) (st : state) : result state :=
  match remaining with
  | O => Ok st
  | S remaining' =>
      let* (st', stop) := epoch_body epoch st in
      if stop then Ok st' else epochs_loop remaining' (S epoch) st'
  end.

(** What [train_model] leaves behind: the returned history, the model and the
    optimizer as mutated, and the checkpoint file. *)
Record trained : Type := {
  train_history : list float;
  final_model : Model;
  final_optim : Optim;
  checkpoint_file : option Model
}.

(** [model0], [optim0]: the arguments as passed in; [file0]: the content of
    [best_model.pth] before the call, if the file exists. *)
Variable model0 : Model.
Variable optim0 : Optim.
Variable file0 : option Model.

Definition initial_state : state :=
  {| model := model0; optim := optim0; history := [];
     best_loss := infinity; counter := 0; best_model_pth := file0 |}.

Definition train_model (epochs : nat) : result trained :=
  let* st := epochs_loop epochs 0 initial_state in
  match best_model_pth st with
  | Some checkpoint =>
      Ok {| train_history := history st;
            final_model := checkpoint;
            final_optim := optim st;
            checkpoint_file := best_model_pth st |}
  | None => Raise FileNotFoundError
  end.

(** *** The run as a function of the epoch number

    Training itself never looks at [best_loss] or [counter], so the
    parameters at the start of epoch [e] and the mean loss of epoch [e] are
    functions of [e] alone, as long as the loop has not been left. *)
Fixpoint params_at (e : nat) : Model * Optim :=
  match e with
  | O => (model0, optim0)
  | S e' =>
      let '(m, o) := params_at e' in
      let '(m', o', running_loss) := run_batches m o 0%float (train_loader e') in
      (m', scheduler_step o'
             (running_loss / float_of_nat (length (train_loader e')))%float)
  end.

Definition epoch_loss (e : nat) : float :=
  let '(m, o) := params_at e in
  let '(_, _, running_loss) := run_batches m o 0%float (train_loader e) in
  (running_loss / float_of_nat (length (train_loader e)))%float.

(** Best loss and stall counter at the start of epoch [e]. *)
Fixpoint tracker (e : nat) : float * nat :=
  match e with
  | O => (infinity, 0%nat)
  | S e' =>
      let '(best, stalled) := tracker e' in
      if (epoch_loss e' <? best)%float then (epoch_loss e', 0%nat)
      else (best, S stalled)
  end.

(** Content of [best_model.pth] at the start of epoch [e]. *)
Fixpoint checkpoint_at (e : nat) : option Model :=
  match e with
  | O => file0
  | S e' =>
      if (epoch_loss e' <? fst (tracker e'))%float then Some (fst (params_at (S e')))
      else checkpoint_at e'
  end.

Definition state_at (e : nat) : state :=
  {| model := fst (params_at e);
     optim := snd (params_at e);
     history := map epoch_loss (seq 0 e);
     best_loss := fst (tracker e);
     counter := snd (tracker e);
     best_model_pth := checkpoint_at e |}.

(** Number of epochs completed when a loop of [remaining] iterations entered
    at epoch [e] is left. *)
Fixpoint stop_epoch (remaining e : nat) : nat :=
  match remaining with
  | O => e
  | S remaining' =>
      if Nat.leb patience (snd (tracker (S e))) then S e
      else stop_epoch remaining' (S e)
  end.

(** *** The loop follows [state_at] *)

Lemma epoch_unfold (e : nat) (m m' : Model) (o o' : Optim) (running_loss : float) :
  params_at e = (m, o) ->
  run_batches m o 0%float (train_loader e) = (m', o', running_loss) ->
  epoch_loss e = (running_loss / float_of_nat (length (train_loader e)))%float
  /\ params_at (S e)
     = (m', scheduler_step o'
              (running_loss / float_of_nat (length (train_loader e)))%float).
Proof.
  intros Hp Hr. unfold epoch_loss. cbn [params_at]. rewrite Hp, Hr. auto.
Qed.

Lemma history_snoc (e : nat) :
  map epoch_loss (seq 0 (S e)) = map epoch_loss (seq 0 e) ++ [epoch_loss e].
Proof. rewrite seq_S, map_app. reflexivity. Qed.

Lemma epoch_body_state_at (e : nat) :
  train_loader e <> [] ->
  epoch_body e (state_at e)
  = Ok (state_at (S e), Nat.leb patience (snd (tracker (S e)))).
Proof.
  intros Hne. unfold epoch_body. cbn [state_at model optim].
  destruct (params_at e) as [m o] eqn:Hp. cbn [fst snd].
  destruct (run_batches m o 0%float (train_loader e)) as [[m' o'] rl] eqn:Hr.
  destruct (epoch_unfold e m m' o o' rl Hp Hr) as [Hloss Hnext].
  destruct (Nat.eqb_spec (length (train_loader e)) 0) as [E | _].
  { destruct (train_loader e); [congruence | discriminate E]. }
  rewrite <- Hloss in Hnext |- *. unfold state_at.
  rewrite history_snoc. cbn [tracker checkpoint_at].
  cbn [best_loss counter history best_model_pth].
  rewrite !Hnext.
  destruct (tracker e) as [best stalled]. cbn [fst snd].
  destruct (epoch_loss e <? best)%float; reflexivity.
Qed.

Lemma epochs_loop_state_at (remaining e : nat) :
  (forall e', (e <= e')%nat -> (e' < e + remaining)%nat -> train_loader e' <> []) ->
  epochs_loop remaining e (state_at e) = Ok (state_at (stop_epoch remaining e)).
Proof.
  revert e. induction remaining as [| r IH]; intros e Hne; [reflexivity |].
  cbn [epochs_loop stop_epoch].
  rewrite epoch_body_state_at by (apply Hne; lia). cbn [bind].
  destruct (Nat.leb patience (snd (tracker (S e)))); [reflexivity |].
  apply IH. intros e' H1 H2. apply Hne; lia.
Qed.

Lemma stop_epoch_bounds (remaining e : nat) :
  (e <= stop_epoch remaining e)%nat
  /\ (stop_epoch remaining e <= e + remaining)%nat
  /\ (1 <= remaining -> e < stop_epoch remaining e)%nat.
Proof.
  revert e. induction remaining as [| r IH]; intros e; cbn [stop_epoch]; [lia |].
  destruct (Nat.leb patience (snd (tracker (S e)))); [lia |].
  destruct (IH (S e)) as [H1 [H2 _]]. lia.
Qed.

Lemma stop_epoch_running (d remaining e : nat) :
  (d <= remaining)%nat ->
  (forall e', (e <= e')%nat -> (e' < e + d)%nat ->
     (snd (tracker (S e')) < patience)%nat) ->
  stop_epoch remaining e = stop_epoch (remaining - d) (e + d).
Proof.
  revert remaining e. induction d as [| d IH]; intros r e Hd Hrun.
  - rewrite Nat.sub_0_r, Nat.add_0_r. reflexivity.
  - destruct r as [| r]; [lia |]. cbn [stop_epoch].
    destruct (Nat.leb_spec patience (snd (tracker (S e)))) as [Hstop | _].
    + specialize (Hrun e). lia.
    + rewrite (IH r (S e)); [| lia | intros e' H1 H2; apply Hrun; lia].
      f_equal; lia.
Qed.

Lemma initial_state_at : initial_state = state_at 0.
Proof. reflexivity. Qed.

(** *** Early stopping *)

Lemma tracker_after_best (k d : nat) :
  (epoch_loss k <? fst (tracker k))%float = true ->
  (forall j, (k < j)%nat -> (j <= k + d)%nat ->
     (epoch_loss j <? epoch_loss k)%float = false) ->
  tracker (S (k + d)) = (epoch_loss k, d)
  /\ checkpoint_at (S (k + d)) = Some (fst (params_at (S k))).
Proof.
  intros Hbest Hflat. induction d as [| d IH].
  - rewrite Nat.add_0_r. cbn [tracker checkpoint_at]. rewrite Hbest.
    destruct (tracker k) as [best stalled]. cbn [fst] in Hbest. rewrite Hbest. auto.
  - destruct IH as [Ht Hc]; [intros j H1 H2; apply Hflat; lia |].
    rewrite Nat.add_succ_r.
    change (tracker (S (S (k + d))))
      with (let '(best, stalled) := tracker (S (k + d)) in
            if (epoch_loss (S (k + d)) <? best)%float
            then (epoch_loss (S (k + d)), 0%nat) else (best, S stalled)).
    change (checkpoint_at (S (S (k + d))))
      with (if (epoch_loss (S (k + d)) <? fst (tracker (S (k + d))))%float
            then Some (fst (params_at (S (S (k + d)))))
            else checkpoint_at (S (k + d))).
    rewrite Ht. cbn [fst]. rewrite (Hflat (S (k + d))) by lia. auto.
Qed.

Lemma stop_epoch_after_best (epochs k : nat) :
  (k < epochs)%nat ->
  (forall e, (e < k)%nat -> (snd (tracker (S e)) < patience)%nat) ->
  (epoch_loss k <? fst (tracker k))%float = true ->
  (forall j, (k < j)%nat -> (j < epochs)%nat ->
     (epoch_loss j <? epoch_loss k)%float = false) ->
  stop_epoch epochs 0 = Nat.min epochs (k + 1 + patience).
Proof.
  intros Hk Hrun Hbest Hflat.
  assert (Hcount : forall d, (k + d < epochs)%nat -> snd (tracker (S (k + d))) = d).
  { intros d Hd.
    destruct (tracker_after_best k d Hbest) as [-> _]; [| reflexivity].
    intros j H1 H2. apply Hflat; lia. }
  rewrite (stop_epoch_running k epochs 0) by (try lia; intros e' _ H; apply Hrun; lia).
  cbn [Nat.add].
  destruct (Nat.lt_ge_cases (k + patience) epochs) as [Hlong | Hshort].
  - rewrite (stop_epoch_running patience (epochs - k) k).
    + destruct (epochs - k - patience)%nat as [| r] eqn:Hr; [lia |].
      cbn [stop_epoch]. rewrite (Hcount patience) by lia.
      rewrite Nat.leb_refl. lia.
    + lia.
    + intros e' H1 H2. replace e' with (k + (e' - k))%nat by lia.
      rewrite Hcount by lia. lia.
  - rewrite (stop_epoch_running (epochs - k) (epochs - k) k).
    + rewrite Nat.sub_diag. cbn [stop_epoch]. lia.
    + lia.
    + intros e' H1 H2. replace e' with (k + (e' - k))%nat by lia.
      rewrite Hcount by lia. lia.
Qed.

(** C2.  Let the loop reach epoch [k] (no early stop before it), let the mean
    loss of epoch [k] be below the best loss seen so far, and let no later
    epoch be below the loss of epoch [k].  Then [train_model] runs epochs
    [0 .. k + 20] and leaves the loop there, or runs all [epochs] when the
    budget ends first; in both cases the parameters left in the model are the
    ones saved after epoch [k], whatever the later epochs trained. *)
Theorem early_stopping_restores_best (epochs k : nat) :
  (forall e, (e < epochs)%nat -> train_loader e <> []) ->
  (k < epochs)%nat ->
  (forall e, (e < k)%nat -> (snd (tracker (S e)) < patience)%nat) ->
  (epoch_loss k <? fst (tracker k))%float = true ->
  (forall j, (k < j)%nat -> (j < epochs)%nat ->
     (epoch_loss j <? epoch_loss k)%float = false) ->
  train_model epochs
  = Ok {| train_history := map epoch_loss (seq 0 (Nat.min epochs (k + 1 + patience)));
          final_model := fst (params_at (S k));
          final_optim := snd (params_at (Nat.min epochs (k + 1 + patience)));
          checkpoint_file := Some (fst (params_at (S k))) |}.
Proof.
  intros Hne Hk Hrun Hbest Hflat.
  pose proof (stop_epoch_after_best epochs k Hk Hrun Hbest Hflat) as Hstop.
  unfold train_model. rewrite initial_state_at.
  rewrite epochs_loop_state_at by (intros e' _ H; apply Hne; lia).
  rewrite Hstop. cbn [bind state_at best_model_pth history optim].
  set (E := Nat.min epochs (k + 1 + patience)).
  assert (HE : E = S (k + (E - k - 1))) by (unfold E, patience; lia).
  destruct (tracker_after_best k (E - k - 1) Hbest) as [_ Hc].
  { intros j H1 H2. apply Hflat; [exact H1 | unfold E in H2; lia]. }
  rewrite <- HE in Hc. rewrite Hc. reflexivity.
Qed.

(** *** The first checkpoint *)

Lemma checkpoint_written (E : nat) :
  (1 <= E)%nat ->
  checkpoint_at 1 = Some (fst (params_at 1)) ->
  exists e, (e < E)%nat /\ checkpoint_at E = Some (fst (params_at (S e))).
Proof.
  intros HE H1. induction E as [| E IH]; [lia |].
  destruct E as [| E]; [exists 0%nat; split; [lia | exact H1] |].
  destruct IH as [e [He Hc]]; [lia |].
  change (checkpoint_at (S (S E)))
    with (if (epoch_loss (S E) <? fst (tracker (S E)))%float
          then Some (fst (params_at (S (S E))))
          else checkpoint_at (S E)).
  destruct (epoch_loss (S E) <? fst (tracker (S E)))%float.
  - exists (S E). split; [lia | reflexivity].
  - exists e. split; [lia | exact Hc].
Qed.

(** C3, as the code behaves.  In a run of at least one epoch, every epoch
    having at least one batch, in which the mean loss of the first epoch
    compares below the [+infinity] sentinel, the first epoch saves the
    parameters it has just trained; the load after the loop then finds a
    checkpoint written by this run, and [train_model] returns with it. *)
Theorem first_epoch_writes_checkpoint (epochs : nat) :
  (1 <= epochs)%nat ->
  (forall e, (e < epochs)%nat -> train_loader e <> []) ->
  (epoch_loss 0 <? infinity)%float = true ->
  (exists st1 : state,
     epoch_body 0 initial_state = Ok (st1, false)
     /\ best_model_pth st1 = Some (model st1))
  /\ (exists (e : nat) (res : trained),
        (e < epochs)%nat
        /\ train_model epochs = Ok res
        /\ checkpoint_file res = Some (fst (params_at (S e)))
        /\ final_model res = fst (params_at (S e))).
Proof.
  intros Hep Hne Hfirst.
  assert (Ht1 : tracker 1 = (epoch_loss 0, 0%nat))
    by (cbn [tracker]; rewrite Hfirst; reflexivity).
  assert (Hc1 : checkpoint_at 1 = Some (fst (params_at 1)))
    by (cbn [checkpoint_at tracker fst]; rewrite Hfirst; reflexivity).
  split.
  - exists (state_at 1). rewrite initial_state_at.
    rewrite epoch_body_state_at by (apply Hne; lia).
    rewrite Ht1. split; [reflexivity | exact Hc1].
  - destruct (stop_epoch_bounds epochs 0) as [_ [Hup Hlow]].
    specialize (Hlow Hep).
    destruct (checkpoint_written (stop_epoch epochs 0)) as [e [He Hc]];
      [lia | exact Hc1 |].
    exists e. eexists. split; [lia |].
    unfold train_model. rewrite initial_state_at.
    rewrite epochs_loop_state_at by (intros e' _ H; apply Hne; lia).
    cbn [bind state_at best_model_pth]. rewrite Hc.
    split; [reflexivity | split; reflexivity].
Qed.

(** *** Further facts about the loop *)

Lemma epochs_loop_running (d remaining e : nat) :
  (d <= remaining)%nat ->
  (forall e', (e <= e')%nat -> (e' < e + d)%nat -> train_loader e' <> []) ->
  (forall e', (e <= e')%nat -> (e' < e + d)%nat ->
     (snd (tracker (S e')) < patience)%nat) ->
  epochs_loop remaining e (state_at e)
  = epochs_loop (remaining - d) (e + d) (state_at (e + d)).
Proof.
  revert remaining e. induction d as [| d IH]; intros r e Hd Hne Hrun.
  - rewrite Nat.sub_0_r, Nat.add_0_r. reflexivity.
  - destruct r as [| r]; [lia |]. cbn [epochs_loop].
    rewrite epoch_body_state_at by (apply Hne; lia). cbn [bind].
    destruct (Nat.leb_spec patience (snd (tracker (S e)))) as [Hstop | _].
    + specialize (Hrun e). lia.
    + rewrite (IH r (S e));
        [| lia | intros e' H1 H2; apply Hne; lia | intros e' H1 H2; apply Hrun; lia].
      replace (S r - S d)%nat with (r - d)%nat by lia.
      replace (S e + d)%nat with (e + S d)%nat by lia. reflexivity.
Qed.

Lemma epoch_body_empty_loader (e : nat) (st : state) :
  train_loader e = [] -> epoch_body e st = Raise ZeroDivisionError.
Proof. intros H. unfold epoch_body. rewrite H. reflexivity. Qed.

(** An epoch without batches ends the call: the mean of the epoch divides by
    the length of the loader.  The epochs before it have been trained, but
    nothing is returned and no checkpoint is loaded. *)
Theorem empty_loader_raises (epochs e : nat) :
  (e < epochs)%nat ->
  (forall e', (e' < e)%nat -> train_loader e' <> []) ->
  (forall e', (e' < e)%nat -> (snd (tracker (S e')) < patience)%nat) ->
  train_loader e = [] ->
  train_model epochs = Raise ZeroDivisionError.
Proof.
  intros He Hne Hrun Hempty. unfold train_model. rewrite initial_state_at.
  rewrite (epochs_loop_running e epochs 0);
    [| lia | intros e' _ H; apply Hne; lia | intros e' _ H; apply Hrun; lia].
  cbn [Nat.add]. destruct (epochs - e)%nat as [| r] eqn:Hr; [lia |].
  cbn [epochs_loop]. rewrite (epoch_body_empty_loader e _ Hempty). reflexivity.
Qed.

Lemma tracker_no_improvement (E : nat) :
  (forall e, (e < E)%nat -> (epoch_loss e <? infinity)%float = false) ->
  tracker E = (infinity, E) /\ checkpoint_at E = file0.
Proof.
  induction E as [| E IH]; intros Hno; [split; reflexivity |].
  destruct IH as [Ht Hc]; [intros e He; apply Hno; lia |].
  cbn [tracker checkpoint_at]. rewrite Ht. cbn [fst].
  rewrite (Hno E) by lia. split; [reflexivity | exact Hc].
Qed.

Lemma stop_epoch_no_improvement (epochs : nat) :
  (forall e, (e < epochs)%nat -> (epoch_loss e <? infinity)%float = false) ->
  stop_epoch epochs 0 = Nat.min epochs patience.
Proof.
  intros Hno.
  assert (Hcount : forall e, (e < epochs)%nat -> snd (tracker (S e)) = S e).
  { intros e He. destruct (tracker_no_improvement (S e)) as [-> _]; [| reflexivity].
    intros e' He'. apply Hno. lia. }
  destruct (Nat.lt_ge_cases epochs patience) as [Hshort | Hlong].
  - rewrite (stop_epoch_running epochs epochs 0).
    + rewrite Nat.sub_diag. cbn [stop_epoch Nat.add]. lia.
    + lia.
    + intros e' _ H. rewrite Hcount by lia. lia.
  - rewrite (stop_epoch_running (patience - 1) epochs 0).
    + cbn [Nat.add]. destruct (epochs - (patience - 1))%nat as [| r] eqn:Hr;
        [unfold patience in *; lia |].
      cbn [stop_epoch]. rewrite Hcount by (unfold patience in *; lia).
      destruct (Nat.leb_spec patience (S (patience - 1))) as [_ | H];
        unfold patience in *; lia.
    + unfold patience in *; lia.
    + intros e' _ H. rewrite Hcount by (unfold patience in *; lia).
      unfold patience in *; lia.
Qed.

(** When no epoch's mean loss compares below [+infinity] (all NaN or
    [+infinity], or no epoch at all), nothing is saved: the loop is left after
    [min epochs 20] epochs and the load reads whatever [best_model.pth] held
    before the call.  An older file silently replaces the parameters just
    trained; without one the call raises. *)
Theorem no_improvement_loads_old_file (epochs : nat) :
  (forall e, (e < epochs)%nat -> train_loader e <> []) ->
  (forall e, (e < epochs)%nat -> (epoch_loss e <? infinity)%float = false) ->
  train_model epochs
  = match file0 with
    | Some old =>
        Ok {| train_history := map epoch_loss (seq 0 (Nat.min epochs patience));
              final_model := old;
              final_optim := snd (params_at (Nat.min epochs patience));
              checkpoint_file := Some old |}
    | None => Raise FileNotFoundError
    end.
Proof.
  intros Hne Hno. unfold train_model. rewrite initial_state_at.
  rewrite epochs_loop_state_at by (intros e' _ H; apply Hne; lia).
  rewrite (stop_epoch_no_improvement epochs Hno).
  cbn [bind state_at best_model_pth history optim].
  assert (Hfile : checkpoint_at (Nat.min epochs patience) = file0).
  { apply tracker_no_improvement. intros e He. apply Hno. lia. }
  rewrite Hfile. destruct file0; reflexivity.
Qed.




Definition improved (e : nat) : bool := (epoch_loss e <? fst (tracker e))%float.

Lemma checkpoint_last_improvement (E : nat) :
  (checkpoint_at E = file0 /\ forall e, (e < E)%nat -> improved e = false)
  \/ (exists e, (e < E)%nat
        /\ improved e = true
        /\ checkpoint_at E = Some (fst (params_at (S e)))
        /\ fst (tracker E) = epoch_loss e
        /\ forall j, (e < j)%nat -> (j < E)%nat ->
             (epoch_loss j <? epoch_loss e)%float = false).
Proof.
  induction E as [| E IH].
  - left. split; [reflexivity | intros e He; lia].
  - assert (Hstep : fst (tracker (S E))
                    = if improved E then epoch_loss E else fst (tracker E)).
    { cbn [tracker]. unfold improved. destruct (tracker E) as [best stalled].
      cbn [fst]. destruct (epoch_loss E <? best)%float; reflexivity. }
    assert (Hck : checkpoint_at (S E)
                  = if improved E then Some (fst (params_at (S E)))
                    else checkpoint_at E) by reflexivity.
    rewrite Hck, Hstep. destruct (improved E) eqn:HE.
    + right. exists E. split; [lia |]. split; [exact HE |].
      split; [reflexivity |]. split; [reflexivity |]. intros j H1 H2. lia.
    + destruct IH as [[Hc Hno] | [e [He [Hi [Hc [Hb Hflat]]]]]].
      * left. split; [exact Hc |]. intros e He.
        destruct (Nat.eq_dec e E) as [-> | Hneq]; [exact HE | apply Hno; lia].
      * right. exists e. split; [lia |]. split; [exact Hi |].
        split; [exact Hc |]. split; [exact Hb |]. intros j H1 H2.
        destruct (Nat.eq_dec j E) as [-> | Hneq]; [| apply Hflat; lia].
        unfold improved in HE. rewrite Hb in HE. exact HE.
Qed.

(** Whenever [train_model] returns, the parameters it leaves in the model are
    those saved by the last epoch of the history that improved on the best
    loss before it, and no later epoch of the history has a loss that compares
    below that epoch's; or no epoch improved, and they are the content of the
    file that was there before the call. *)
Theorem restored_is_last_improvement (epochs : nat) (res : trained) :
  (forall e, (e < epochs)%nat -> train_loader e <> []) ->
  train_model epochs = Ok res ->
  (file0 = Some (final_model res)
   /\ forall e, (e < length (train_history res))%nat -> improved e = false)
  \/ (exists e, (e < length (train_history res))%nat
        /\ improved e = true
        /\ final_model res = fst (params_at (S e))
        /\ forall j, (e < j)%nat -> (j < length (train_history res))%nat ->
             (epoch_loss j <? epoch_loss e)%float = false).
Proof.
  intros Hne Hres. unfold train_model in Hres. rewrite initial_state_at in Hres.
  rewrite epochs_loop_state_at in Hres by (intros e' _ H; apply Hne; lia).
  cbn [bind state_at best_model_pth history optim] in Hres.
  set (E := stop_epoch epochs 0) in *.
  destruct (checkpoint_at E) as [ck |] eqn:Hck; [| discriminate Hres].
  injection Hres as <-. cbn [train_history final_model].
  rewrite length_map, length_seq.
  destruct (checkpoint_last_improvement E) as [[Hc Hno] | [e [He [Hi [Hc [_ Hflat]]]]]].
  - left. split; [congruence | exact Hno].
  - right. exists e. repeat split; [exact He | exact Hi | congruence | exact Hflat].
Qed.

End TrainModel.

(** *** Runs on a toy model

    The parameters are a step counter, every epoch has one batch, and the
    batch loss is a function of the number of steps taken so far. *)

Definition toy_step (loss : nat -> float) (m : nat) (o : unit) (b : unit)
  : nat * unit * float :=
  (S m, o, loss m).

Definition toy_loader (epoch : nat) : list unit := [tt].

Definition toy_train_model (loss : nat -> float) (file0 : option nat) (epochs : nat)
  : result (trained nat unit) :=
  train_model nat unit unit (toy_step loss) None toy_loader 0%nat tt file0 epochs.

(** Loss 3, 2, 1, 1, 1, ...: the best epoch is the third one. *)
Definition plateau (m : nat) : float :=
  match m with
  | 0%nat => 3%float
  | 1%nat => 2%float
  | _ => 1%float
  end.

Lemma toy_params_at (loss : nat -> float) (e : nat) :
  params_at nat unit unit (toy_step loss) None toy_loader 0%nat tt e = (e, tt).
Proof.
  induction e as [| e IH]; [reflexivity |].
  cbn [params_at]. rewrite IH. reflexivity.
Qed.

Lemma toy_epoch_loss (loss : nat -> float) (e : nat) :
  epoch_loss nat unit unit (toy_step loss) None toy_loader 0%nat tt e
  = ((0 + loss e) / 1)%float.
Proof. unfold epoch_loss. rewrite toy_params_at. reflexivity. Qed.

Lemma plateau_flat (j : nat) :
  (2 < j)%nat ->
  (epoch_loss nat unit unit (toy_step plateau) None toy_loader 0%nat tt j
   <? epoch_loss nat unit unit (toy_step plateau) None toy_loader 0%nat tt 2)%float
  = false.
Proof.
  intros Hj. rewrite !toy_epoch_loss.
  destruct j as [| [| [| j]]]; try lia. reflexivity.
Qed.

Lemma plateau_running (e : nat) :
  (e < 2)%nat ->
  (snd (tracker nat unit unit (toy_step plateau) None toy_loader 0%nat tt (S e))
   < patience)%nat.
Proof.
  intros He. destruct e as [| [| e]]; [| | lia]; vm_compute; lia.
Qed.

Lemma early_stopping_restores_best_witness :
  toy_train_model plateau None 200
  = Ok {| train_history :=
            map (epoch_loss nat unit unit (toy_step plateau) None toy_loader 0%nat tt)
                (seq 0 (Nat.min 200 (2 + 1 + patience)));
          final_model :=
            fst (params_at nat unit unit (toy_step plateau) None toy_loader 0%nat tt 3);
          final_optim :=
            snd (params_at nat unit unit (toy_step plateau) None toy_loader 0%nat tt
                   (Nat.min 200 (2 + 1 + patience)));
          checkpoint_file :=
            Some (fst (params_at nat unit unit (toy_step plateau) None toy_loader
                         0%nat tt 3)) |}.
Proof.
  apply (early_stopping_restores_best nat unit unit (toy_step plateau) None toy_loader
           0%nat tt None 200 2).
  - intros e _. discriminate.
  - lia.
  - exact plateau_running.
  - reflexivity.
  - intros j Hj _. exact (plateau_flat j Hj).
Defined.

(** The same run, computed: 23 epochs of the 200 are run, and the model is
    left with the parameters of the third epoch, not those of the last. *)
Example plateau_run :
  match toy_train_model plateau None 200 with
  | Ok res =>
      length (train_history nat unit res) = 23%nat
      /\ final_model nat unit res = 3%nat
      /\ checkpoint_file nat unit res = Some 3%nat
  | Raise _ => False
  end.
Proof. vm_compute. repeat split. Qed.

Lemma first_epoch_writes_checkpoint_witness :
  (exists st1 : state nat unit,
     epoch_body nat unit unit (toy_step plateau) None toy_loader 0
       (initial_state nat unit 0%nat tt None) = Ok (st1, false)
     /\ best_model_pth nat unit st1 = Some (model nat unit st1))
  /\ (exists (e : nat) (res : trained nat unit),
        (e < 200)%nat
        /\ toy_train_model plateau None 200 = Ok res
        /\ checkpoint_file nat unit res
           = Some (fst (params_at nat unit unit (toy_step plateau) None toy_loader
                          0%nat tt (S e)))
        /\ final_model nat unit res
           = fst (params_at nat unit unit (toy_step plateau) None toy_loader
                    0%nat tt (S e))).
Proof.
  apply (first_epoch_writes_checkpoint nat unit unit (toy_step plateau) None toy_loader
           0%nat tt None 200).
  - lia.
  - intros e _. discriminate.
  - reflexivity.
Defined.

(** C3, as stated, fails.  When the first epoch's mean loss is NaN or
    [+infinity], it does not compare below the sentinel; if that goes on, no
    checkpoint is ever written, the loop is left after 20 epochs and the load
    finds no file. *)
Lemma no_checkpoint_without_improvement :
  (nan <? infinity)%float = false
  /\ toy_train_model (fun _ => nan) None 200 = Raise FileNotFoundError
  /\ (infinity <? infinity)%float = false
  /\ toy_train_model (fun _ => infinity) None 200 = Raise FileNotFoundError.
Proof. repeat split; vm_compute; reflexivity. Qed.

(** *** More toy runs *)

(** One batch in the first epoch, none afterwards. *)
Definition drained_loader (epoch : nat) : list unit :=
  match epoch with
  | O => [tt]
  | S _ => []
  end.

Lemma empty_loader_raises_witness :
  train_model nat unit unit (toy_step plateau) None drained_loader 0%nat tt None 5
  = Raise ZeroDivisionError.
Proof.
  apply (empty_loader_raises nat unit unit (toy_step plateau) None drained_loader
           0%nat tt None 5 1).
  - lia.
  - intros e' He'. destruct e' as [| e']; [discriminate | lia].
  - intros e' He'. destruct e' as [| e']; [vm_compute; lia | lia].
  - reflexivity.
Defined.

Lemma no_improvement_loads_old_file_witness :
  toy_train_model (fun _ => nan) (Some 99%nat) 200
  = Ok {| train_history :=
            map (epoch_loss nat unit unit (toy_step (fun _ => nan)) None toy_loader
                   0%nat tt)
                (seq 0 (Nat.min 200 patience));
          final_model := 99%nat;
          final_optim :=
            snd (params_at nat unit unit (toy_step (fun _ => nan)) None toy_loader
                   0%nat tt (Nat.min 200 patience));
          checkpoint_file := Some 99%nat |}.
Proof.
  apply (no_improvement_loads_old_file nat unit unit (toy_step (fun _ => nan)) None
           toy_loader 0%nat tt (Some 99%nat) 200).
  - intros e _. discriminate.
  - intros e _. rewrite toy_epoch_loss. reflexivity.
Defined.


Lemma restored_is_last_improvement_witness :
  (None = Some 3%nat
   /\ forall e, (e < length [3; 2; 1; 1; 1]%float)%nat ->
        improved nat unit unit (toy_step plateau) None toy_loader 0%nat tt e = false)
  \/ (exists e, (e < length [3; 2; 1; 1; 1]%float)%nat
        /\ improved nat unit unit (toy_step plateau) None toy_loader 0%nat tt e = true
        /\ 3%nat = fst (params_at nat unit unit (toy_step plateau) None toy_loader
                          0%nat tt (S e))
        /\ forall j, (e < j)%nat -> (j < length [3; 2; 1; 1; 1]%float)%nat ->
             (epoch_loss nat unit unit (toy_step plateau) None toy_loader 0%nat tt j
              <? epoch_loss nat unit unit (toy_step plateau) None toy_loader 0%nat tt e)
             %float = false).
Proof.
  apply (restored_is_last_improvement nat unit unit (toy_step plateau) None toy_loader
           0%nat tt None 5
           {| train_history := [3; 2; 1; 1; 1]%float; final_model := 3%nat;
              final_optim := tt; checkpoint_file := Some 3%nat |}).
  - intros e _. discriminate.
  - vm_compute. reflexivity.
Defined.

End Trainer.

(** ** feature_importance_analysis *)

Module Importance.

Import Numpy.
Open Scope R_scope.

(** A [(1, N)] tensor, as its one row. *)
Abbreviation tensor := (list R).

(** Tensors are mutable objects: the heap maps a reference (its position) to
    the tensor's current content. *)
Abbreviation heap := (list (list R)).

Definition new_tensor (t : tensor) (h : heap) : nat * heap :=
  (length h, h ++ [t]).

Definition read (r : nat) (h : heap) : result tensor :=
  match h !! r with
  | Some t => Ok t
  | None => Raise RuntimeError
  end.

(** [t.clone()]: a new tensor with the same content. *)
Definition clone (r : nat) (h : heap) : result (nat * heap) :=
  let* t := read r h in
  Ok (new_tensor t h).

(** [t[0, i] += d]: in place; an index out of range raises. *)
Definition iadd_at (r i : nat) (d : R) (h : heap) : result heap :=
  let* t := read r h in
  match t !! i with
  | Some x => Ok (<[r := <[i := x + d]> t]> h)
  | None => Raise IndexError
  end.

(** [a - b] on tensors of one shape, and [torch.norm]. *)
Fixpoint tensor_sub (a b : tensor) {struct a} : tensor :=
  match a, b with
  | x :: a', y :: b' => x - y :: tensor_sub a' b'
  | _, _ => []
  end.

Definition norm (t : tensor) : R := sqrt (np_sum (map (fun x => x * x) t)).

(** [np.max]: an empty array has no maximum. *)
Definition np_max (l : list R) : result R :=
  match l with
  | [] => Raise ValueError
  | x :: t => Ok (fold_left Rmax t x)
  end.

(** The order [np.argsort] sorts by: ascending, NaN last. *)
Definition np_leb (a b : npfloat) : bool :=
  match a, b with
  | _, NaN => true
  | NaN, _ => false
  | NInf, _ => true
  | _, NInf => false
  | _, PInf => true
  | PInf, _ => false
  | Fin x, Fin y => if Rle_dec x y then true else false
  end.

(** [a[-k:]] *)
Definition last_k {A : Type} (k : nat) (l : list A) : list A :=
  skipn (length l - k) l.

Section Analysis.

(** The forward pass in evaluation mode under [no_grad]: a function of the
    input's content.  It returns a new tensor and leaves its argument alone. *)
Variable model : tensor -> tensor.

(** [np.argsort] with its default kind, which fixes no order among equal
    values; only what [argsort_sorts] states is used. *)
Variable argsort : list npfloat -> list nat.

Definition forward (r : nat) (h : heap) : result (nat * heap) :=
  let* x := read r h in
  Ok (new_tensor (model x) h).

(** The body of the perturbation loop for channel [i], on the heap and the
    array [feature_importance]. *)
Definition perturb_channel (random_sample original_output i : nat)
    (st : heap * list R) : result (heap * list R) :=
  let (h, feature_importance) := st in
  let* (perturbed_sample, h) := clone random_sample h in
  let* h := iadd_at perturbed_sample i 0.1 h in
  let* (perturbed_output, h) := forward perturbed_sample h in
  let* out := read perturbed_output h in
  let* base := read original_output h in
  let importance := norm (tensor_sub out base) in
  if Nat.ltb i (length feature_importance)
  then Ok (h, <[i := importance]> feature_importance)
  else Raise IndexError.

Fixpoint perturb_channels (random_sample original_output : nat)
    (channels : list nat) (st : heap * list R) : result (heap * list R) :=
  match channels with
  | [] => Ok st
  | i :: rest =>
      let* st := perturb_channel random_sample original_output i st in
      perturb_channels random_sample original_output rest st
  end.

(** [spectra_columns]: the wavelength labels; [randn]: the values drawn by
    [torch.randn(1, len(spectra_columns))]; [h0]: the tensors that exist when
    the function is entered.  The result is the normalised importance array
    and the labels of the last ten channels in ascending order of it. *)
Definition feature_importance_analysis (spectra_columns : list R) (randn : tensor)
    (h0 : heap) : result (list npfloat * list R) :=
  let n := length spectra_columns in
  let (random_sample, h) := new_tensor randn h0 in
  let* (original_output, h) := forward random_sample h in
  let* (_, raw) :=
    perturb_channels random_sample original_output (seq 0 n) (h, repeat 0 n) in
  let* top := np_max raw in
  let feature_importance := map (fun x => np_true_divide x top) raw in
  let top_indices := last_k 10 (argsort feature_importance) in
  let top_wavelengths := map (fun i => nth i spectra_columns 0) top_indices in
  Ok (feature_importance, top_wavelengths).

(** *** The run in closed form *)

Definition perturbed (sample : tensor) (i : nat) : tensor :=
  match sample !! i with
  | Some x => <[i := x + 0.1]> sample
  | None => sample
  end.

Definition raw_importance (sample : tensor) (i : nat) : R :=
  norm (tensor_sub (model (perturbed sample i)) (model sample)).

Definition heap_after (h0 : heap) (sample : tensor) (k : nat) : heap :=
  h0 ++ [sample; model sample]
     ++ flat_map (fun i => [perturbed sample i; model (perturbed sample i)]) (seq 0 k).

(** *** Heap lemmas *)

Lemma lookup_snoc (h : heap) (t : tensor) : (h ++ [t]) !! length h = Some t.
Proof. induction h as [| a h IH]; [reflexivity | exact IH]. Qed.

Lemma lookup_old (h l : heap) (r : nat) (t : tensor) :
  h !! r = Some t -> (h ++ l) !! r = Some t.
Proof.
  revert r. induction h as [| a h IH]; intros [| r] H; try discriminate H.
  - exact H.
  - apply IH. exact H.
Qed.

Lemma insert_snoc (h : heap) (t t' : tensor) :
  <[length h := t']> (h ++ [t]) = h ++ [t'].
Proof. induction h as [| a h IH]; [reflexivity | simpl; f_equal; exact IH]. Qed.

Lemma insert_fill (l : list R) (v : R) (m : nat) :
  <[length l := v]> (l ++ repeat 0 (S m)) = (l ++ [v]) ++ repeat 0 m.
Proof. induction l as [| a l IH]; [reflexivity | simpl; f_equal; exact IH]. Qed.

Lemma perturbed_inside (sample : tensor) (i : nat) (x : R) :
  sample !! i = Some x -> perturbed sample i = <[i := x + 0.1]> sample.
Proof. intros H. unfold perturbed. rewrite H. reflexivity. Qed.

Lemma heap_after_succ (h0 : heap) (sample : tensor) (k : nat) :
  heap_after h0 sample (S k)
  = heap_after h0 sample k ++ [perturbed sample k; model (perturbed sample k)].
Proof.
  unfold heap_after. rewrite seq_S, flat_map_app. simpl.
  rewrite <- app_assoc. reflexivity.
Qed.

Lemma heap_after_probe (h0 : heap) (sample : tensor) (k : nat) :
  heap_after h0 sample k !! length h0 = Some sample
  /\ heap_after h0 sample k !! S (length h0) = Some (model sample).
Proof.
  induction k as [| k [IH1 IH2]].
  - unfold heap_after. simpl. split.
    + apply list_lookup_middle. reflexivity.
    + change (h0 ++ [sample; model sample]) with (h0 ++ [sample] ++ [model sample]).
      rewrite app_assoc.
      replace (S (length h0)) with (length (h0 ++ [sample]))
        by (rewrite length_app; simpl; lia).
      apply lookup_snoc.
  - rewrite heap_after_succ. split; apply lookup_old; assumption.
Qed.

Lemma perturb_channel_spec (h : heap) (fi : list R) (rs oo i : nat)
    (sample : tensor) (x : R) :
  h !! rs = Some sample ->
  h !! oo = Some (model sample) ->
  sample !! i = Some x ->
  (i < length fi)%nat ->
  perturb_channel rs oo i (h, fi)
  = Ok (h ++ [perturbed sample i; model (perturbed sample i)],
        <[i := raw_importance sample i]> fi).
Proof.
  intros Hrs Hoo Hx Hi. unfold perturb_channel, clone, read.
  rewrite Hrs. cbn [bind new_tensor].
  unfold iadd_at, read. rewrite lookup_snoc. cbn [bind]. rewrite Hx.
  cbn [bind]. rewrite insert_snoc.
  unfold forward, read. rewrite lookup_snoc. cbn [bind new_tensor].
  rewrite lookup_snoc. cbn [bind].
  rewrite (lookup_old _ _ oo (model sample)) by (apply lookup_old; exact Hoo).
  cbn [bind].
  destruct (Nat.ltb_spec i (length fi)) as [_ | Hge]; [| lia].
  unfold raw_importance. rewrite (perturbed_inside sample i x Hx).
  rewrite <- app_assoc. reflexivity.
Qed.

Lemma perturb_channels_app (rs oo : nat) (l1 l2 : list nat) (st : heap * list R) :
  perturb_channels rs oo (l1 ++ l2) st
  = let* st' := perturb_channels rs oo l1 st in perturb_channels rs oo l2 st'.
Proof.
  revert st. induction l1 as [| i l1 IH]; intros st; [reflexivity |].
  cbn [app perturb_channels].
  destruct (perturb_channel rs oo i st) as [st' | e]; [| reflexivity].
  cbn [bind]. apply IH.
Qed.

Definition importances_after (sample : tensor) (n k : nat) : list R :=
  map (raw_importance sample) (seq 0 k) ++ repeat 0 (n - k).

Lemma perturb_channels_prefix (h0 : heap) (sample : tensor) (n k : nat) :
  length sample = n ->
  (k <= n)%nat ->
  perturb_channels (length h0) (S (length h0)) (seq 0 k)
    (heap_after h0 sample 0, repeat 0 n)
  = Ok (heap_after h0 sample k, importances_after sample n k).
Proof.
  intros Hn Hk. induction k as [| k IH].
  - unfold importances_after. rewrite Nat.sub_0_r. reflexivity.
  - rewrite seq_S, perturb_channels_app, IH by lia. cbn [bind Nat.add perturb_channels].
    destruct (heap_after_probe h0 sample k) as [Hrs Hoo].
    assert (Hin : is_Some (sample !! k)) by (apply lookup_lt_is_Some; lia).
    destruct Hin as [x Hx].
    rewrite (perturb_channel_spec _ _ _ _ k sample x Hrs Hoo Hx).
    + cbn [bind]. rewrite <- heap_after_succ. do 2 f_equal.
      unfold importances_after.
      replace (n - k)%nat with (S (n - S k)) by lia.
      replace k with (length (map (raw_importance sample) (seq 0 k))) at 1
        by (rewrite length_map, length_seq; reflexivity).
      rewrite insert_fill, seq_S, map_app. reflexivity.
    + unfold importances_after.
      rewrite length_app, length_map, length_seq, repeat_length. lia.
Qed.

(** C10.  Inside the loop for channel [i] the tensor that is evaluated is a
    clone of the probe in which channel [i] has been raised by 0.1 and every
    other channel is as in the probe; the clone and its output are new
    tensors, so after any number of iterations the probe and the baseline
    output hold what they held at the start, and the importance recorded for
    channel [i] is the norm of the difference to that one baseline. *)
Theorem perturbation_frame (h0 : heap) (sample : tensor) (n i : nat) :
  length sample = n ->
  (i < n)%nat ->
  exists x : R,
    sample !! i = Some x
    /\ perturb_channels (length h0) (S (length h0)) (seq 0 i)
         (h0 ++ [sample; model sample], repeat 0 n)
       = Ok (heap_after h0 sample i, importances_after sample n i)
    /\ perturb_channel (length h0) (S (length h0)) i
         (heap_after h0 sample i, importances_after sample n i)
       = Ok (heap_after h0 sample i ++ [perturbed sample i; model (perturbed sample i)],
             <[i := norm (tensor_sub (model (perturbed sample i)) (model sample))]>
               (importances_after sample n i))
    /\ perturbed sample i !! i = Some (x + 0.1)
    /\ (forall j : nat, j <> i -> perturbed sample i !! j = sample !! j)
    /\ (forall k : nat,
          heap_after h0 sample k !! length h0 = Some sample
          /\ heap_after h0 sample k !! S (length h0) = Some (model sample))
    /\ perturb_channels (length h0) (S (length h0)) (seq 0 n)
         (h0 ++ [sample; model sample], repeat 0 n)
       = Ok (heap_after h0 sample n, map (raw_importance sample) (seq 0 n)).
Proof.
  intros Hn Hi.
  assert (Hin : is_Some (sample !! i)) by (apply lookup_lt_is_Some; lia).
  destruct Hin as [x Hx]. exists x.
  assert (H0 : h0 ++ [sample; model sample] = heap_after h0 sample 0)
    by (unfold heap_after; simpl; reflexivity).
  rewrite H0.
  destruct (heap_after_probe h0 sample i) as [Hrs Hoo].
  split; [exact Hx |].
  split; [apply perturb_channels_prefix; [exact Hn | lia] |].
  split.
  { apply (perturb_channel_spec _ _ _ _ i sample x Hrs Hoo Hx).
    unfold importances_after.
    rewrite length_app, length_map, length_seq, repeat_length. lia. }
  rewrite (perturbed_inside sample i x Hx).
  split; [apply list_lookup_insert_eq; lia |].
  split; [intros j Hj; apply list_lookup_insert_ne; congruence |].
  split; [intros k; apply heap_after_probe |].
  rewrite (perturb_channels_prefix h0 sample n n Hn) by lia.
  unfold importances_after. rewrite Nat.sub_diag. simpl. rewrite app_nil_r.
  reflexivity.
Qed.

(** *** Normalisation *)

Lemma norm_nonneg (t : tensor) : 0 <= norm t.
Proof. unfold norm. apply sqrt_pos. Qed.

Lemma raw_importance_nonneg (sample : tensor) (i : nat) : 0 <= raw_importance sample i.
Proof. apply norm_nonneg. Qed.

Lemma fold_left_Rmax_spec (t : list R) (x : R) :
  x <= fold_left Rmax t x
  /\ (forall y, In y t -> y <= fold_left Rmax t x)
  /\ (fold_left Rmax t x = x \/ In (fold_left Rmax t x) t).
Proof.
  revert x. induction t as [| a t IH]; intros x; simpl.
  - split; [lra | split; [intros y [] | left; reflexivity]].
  - destruct (IH (Rmax x a)) as [H1 [H2 H3]].
    pose proof (Rmax_l x a) as Hl. pose proof (Rmax_r x a) as Hr.
    split; [lra |]. split.
    + intros y [<- | Hy]; [lra | apply H2; exact Hy].
    + destruct H3 as [H3 | H3]; [| right; right; exact H3].
      rewrite H3. unfold Rmax. destruct (Rle_dec x a); [right; left | left]; reflexivity.
Qed.

Lemma np_max_spec (l : list R) (top : R) :
  np_max l = Ok top -> In top l /\ (forall y, In y l -> y <= top).
Proof.
  destruct l as [| x t]; [discriminate |]. intros [= <-].
  destruct (fold_left_Rmax_spec t x) as [H1 [H2 H3]]. split.
  - destruct H3 as [-> | H3]; [left; reflexivity | right; exact H3].
  - intros y [<- | Hy]; [exact H1 | apply H2; exact Hy].
Qed.

Lemma np_max_nonempty (l : list R) : l <> [] -> exists top, np_max l = Ok top.
Proof. destruct l as [| x t]; [congruence | intros _; eexists; reflexivity]. Qed.

Definition raw_importances (sample : tensor) (n : nat) : list R :=
  map (raw_importance sample) (seq 0 n).

(** The heap program computes the closed form. *)
Lemma feature_importance_analysis_unfold (spectra_columns : list R) (randn : tensor)
    (h0 : heap) :
  length randn = length spectra_columns ->
  feature_importance_analysis spectra_columns randn h0
  = let* top := np_max (raw_importances randn (length spectra_columns)) in
    Ok (map (fun x => np_true_divide x top)
            (raw_importances randn (length spectra_columns)),
        map (fun i => nth i spectra_columns 0)
            (last_k 10 (argsort (map (fun x => np_true_divide x top)
                                     (raw_importances randn (length spectra_columns)))))).
Proof.
  intros Hn. unfold feature_importance_analysis. cbn [new_tensor].
  unfold forward, read. rewrite lookup_snoc. cbn [bind new_tensor].
  replace (length (h0 ++ [randn])) with (S (length h0))
    by (rewrite length_app; simpl; lia).
  rewrite <- app_assoc. cbn [app].
  change (h0 ++ [randn; model randn]) with (heap_after h0 randn 0).
  rewrite (perturb_channels_prefix h0 randn (length spectra_columns)
             (length spectra_columns) Hn) by lia.
  cbn [bind]. unfold importances_after. rewrite Nat.sub_diag. simpl repeat.
  rewrite app_nil_r. reflexivity.
Qed.

Lemma normalised_entries (raw : list R) (top : R) :
  np_max raw = Ok top ->
  (forall r, In r raw -> 0 <= r) ->
  top <> 0 ->
  0 < top
  /\ map (fun x => np_true_divide x top) raw = map Fin (map (fun x => x / top) raw)
  /\ (forall x, In x (map (fun x => x / top) raw) -> 0 <= x <= 1)
  /\ In 1 (map (fun x => x / top) raw).
Proof.
  intros Hmax Hpos Hnz. destruct (np_max_spec raw top Hmax) as [Hin Hle].
  assert (Htop : 0 < top) by (specialize (Hpos top Hin); lra).
  split; [exact Htop |]. split; [| split].
  - rewrite map_map. apply map_ext. intros x.
    apply np_true_divide_nonzero. exact Hnz.
  - intros x Hx. apply in_map_iff in Hx. destruct Hx as [r [<- Hr]].
    specialize (Hpos r Hr). specialize (Hle r Hr). split.
    + apply Rmult_le_pos; [exact Hpos | left; apply Rinv_0_lt_compat; exact Htop].
    + apply (Rmult_le_reg_r top); [exact Htop |]. field_simplify; lra.
  - apply in_map_iff. exists top. split; [field; exact Hnz | exact Hin].
Qed.

(** *** The ten largest *)

Definition ascending (v : list npfloat) (i j : nat) : Prop :=
  np_leb (nth i v NaN) (nth j v NaN) = true.

Hypothesis argsort_perm :
  forall v : list npfloat, Permutation (argsort v) (seq 0 (length v)).

Hypothesis argsort_sorted :
  forall v : list npfloat, StronglySorted (ascending v) (argsort v).

Lemma StronglySorted_app_inv {A : Type} (R : A -> A -> Prop) (l1 l2 : list A) :
  StronglySorted R (l1 ++ l2) ->
  forall x y, In x l1 -> In y l2 -> R x y.
Proof.
  induction l1 as [| a l1 IH]; intros Hs x y Hx Hy; [destruct Hx |].
  simpl in Hs. apply StronglySorted_inv in Hs. destruct Hs as [Hs Hall].
  destruct Hx as [<- | Hx].
  - rewrite List.Forall_forall in Hall. apply Hall. apply in_or_app. right. exact Hy.
  - apply (IH Hs x y Hx Hy).
Qed.

Lemma last_k_spec (v : list npfloat) (k : nat) :
  length (last_k k (argsort v)) = Nat.min k (length v)
  /\ List.NoDup (last_k k (argsort v))
  /\ (forall i, In i (last_k k (argsort v)) -> (i < length v)%nat)
  /\ (forall i j, In i (last_k k (argsort v)) -> (j < length v)%nat ->
        ~ In j (last_k k (argsort v)) -> ascending v j i).
Proof.
  pose proof (argsort_perm v) as Hperm.
  pose proof (argsort_sorted v) as Hsorted.
  assert (Hlen : length (argsort v) = length v)
    by (rewrite (Permutation_length Hperm); apply length_seq).
  assert (Hnd : List.NoDup (argsort v)).
  { apply (Permutation_NoDup (l := seq 0 (length v)));
      [symmetry; exact Hperm | apply List.seq_NoDup]. }
  unfold last_k. set (m := (length (argsort v) - k)%nat).
  pose proof (firstn_skipn m (argsort v)) as Hsplit.
  rewrite <- Hsplit in Hnd, Hsorted.
  split; [rewrite length_skipn; unfold m; lia |].
  split; [apply NoDup_app_remove_l in Hnd; exact Hnd |].
  split.
  - intros i Hi.
    assert (Hin : In i (argsort v))
      by (rewrite <- Hsplit; apply in_or_app; right; exact Hi).
    apply (Permutation_in _ Hperm) in Hin. apply in_seq in Hin. lia.
  - intros i j Hi Hj Hout.
    assert (Hin : In j (argsort v)).
    { apply (Permutation_in _ (Permutation_sym Hperm)). apply in_seq. lia. }
    rewrite <- Hsplit in Hin. apply in_app_or in Hin.
    destruct Hin as [Hin | Hin]; [| contradiction].
    apply (StronglySorted_app_inv _ _ _ Hsorted j i Hin Hi).
Qed.

Lemma nth_map_Fin (l : list R) (i : nat) :
  (i < length l)%nat -> nth i (map Fin l) NaN = Fin (nth i l 0).
Proof.
  revert i. induction l as [| a l IH]; intros [| i] Hi; simpl in *; try lia.
  - reflexivity.
  - apply IH. lia.
Qed.

Lemma np_leb_Fin (a b : R) : np_leb (Fin a) (Fin b) = true -> a <= b.
Proof. simpl. destruct (Rle_dec a b); [auto | discriminate]. Qed.

(** C8, as the code behaves.  When the perturbation of at least one channel
    changes the model output, the array returned holds finite values, the
    entry of channel [i] being the norm of the output difference for channel
    [i] raised by 0.1, divided by the largest such norm; every entry lies in
    [0, 1] and one of them is 1.  The labels returned with it are those of
    [min 10 n] distinct channels, none of which has a smaller importance than
    a channel left out. *)
Theorem importance_normalised (spectra_columns : list R) (randn : tensor)
    (h0 : heap) (n c : nat) :
  length spectra_columns = n ->
  length randn = n ->
  (c < n)%nat ->
  raw_importance randn c <> 0 ->
  exists (imp : list R) (top_indices : list nat) (top : R),
    feature_importance_analysis spectra_columns randn h0
    = Ok (map Fin imp, map (fun i => nth i spectra_columns 0) top_indices)
    /\ np_max (raw_importances randn n) = Ok top
    /\ 0 < top
    /\ imp = map (fun i => raw_importance randn i / top) (seq 0 n)
    /\ (forall x, In x imp -> 0 <= x <= 1)
    /\ In 1 imp
    /\ length top_indices = Nat.min 10 n
    /\ List.NoDup top_indices
    /\ (forall i, In i top_indices -> (i < n)%nat)
    /\ (forall i j, In i top_indices -> (j < n)%nat -> ~ In j top_indices ->
          nth j imp 0 <= nth i imp 0).
Proof.
  intros Hcols Hrandn Hc Hraw.
  assert (Hne : raw_importances randn n <> []).
  { unfold raw_importances. destruct n as [| n]; [lia |]. discriminate. }
  destruct (np_max_nonempty _ Hne) as [top Hmax].
  assert (Hpos : forall r, In r (raw_importances randn n) -> 0 <= r).
  { intros r Hr. apply in_map_iff in Hr. destruct Hr as [i [<- _]].
    apply raw_importance_nonneg. }
  assert (Hnz : top <> 0).
  { destruct (np_max_spec _ _ Hmax) as [_ Hle].
    assert (Hin : In (raw_importance randn c) (raw_importances randn n)).
    { apply in_map. apply in_seq. lia. }
    specialize (Hle _ Hin). pose proof (raw_importance_nonneg randn c). lra. }
  destruct (normalised_entries _ top Hmax Hpos Hnz) as [Htop [Hfin [Hrange Hone]]].
  set (imp := map (fun x => x / top) (raw_importances randn n)) in *.
  assert (Hlen : length (map Fin imp) = n).
  { unfold imp, raw_importances. rewrite !length_map, length_seq. reflexivity. }
  destruct (last_k_spec (map Fin imp) 10) as [Hk [Hnd [Hlt Hord]]].
  rewrite Hlen in Hk, Hlt, Hord.
  exists imp, (last_k 10 (argsort (map Fin imp))), top.
  split.
  { rewrite feature_importance_analysis_unfold by congruence.
    rewrite Hcols, Hmax. cbn [bind]. rewrite Hfin. reflexivity. }
  split; [exact Hmax |]. split; [exact Htop |].
  split; [unfold imp, raw_importances; rewrite map_map; reflexivity |].
  split; [exact Hrange |]. split; [exact Hone |].
  split; [exact Hk |]. split; [exact Hnd |]. split; [exact Hlt |].
  intros i j Hi Hj Hout.
  specialize (Hord i j Hi Hj Hout). unfold ascending in Hord.
  assert (Hlen' : length imp = n) by (rewrite length_map in Hlen; exact Hlen).
  rewrite !nth_map_Fin in Hord by (try rewrite Hlen'; auto).
  apply np_leb_Fin. exact Hord.
Qed.

(** *** A model that does not react *)

Lemma fold_left_Rmax_zeros (n : nat) : fold_left Rmax (repeat 0 n) 0 = 0.
Proof.
  induction n as [| n IH]; [reflexivity |].
  simpl. rewrite (Rmax_left 0 0) by lra. exact IH.
Qed.

Lemma map_const_seq {A : Type} (a : A) (s n : nat) :
  map (fun _ => a) (seq s n) = repeat a n.
Proof.
  revert s. induction n as [| n IH]; intros s; [reflexivity |].
  simpl. f_equal. apply IH.
Qed.

Lemma raw_importances_zero (sample : tensor) (n : nat) :
  (forall i, (i < n)%nat -> raw_importance sample i = 0) ->
  raw_importances sample n = repeat 0 n.
Proof.
  intros H. unfold raw_importances. rewrite <- (map_const_seq 0 0 n).
  apply map_ext_in. intros i Hi. apply H. apply in_seq in Hi. lia.
Qed.

(** When no single-channel perturbation changes the model output, every raw
    importance is 0 and so is the maximum they are divided by: the array
    returned is NaN in every channel. *)
Theorem unresponsive_model_gives_nan (spectra_columns : list R) (randn : tensor)
    (h0 : heap) (n : nat) :
  length spectra_columns = n ->
  length randn = n ->
  (1 <= n)%nat ->
  (forall i, (i < n)%nat -> raw_importance randn i = 0) ->
  feature_importance_analysis spectra_columns randn h0
  = Ok (repeat NaN n,
        map (fun i => nth i spectra_columns 0) (last_k 10 (argsort (repeat NaN n)))).
Proof.
  intros Hcols Hrandn Hn Hzero.
  rewrite feature_importance_analysis_unfold by congruence.
  rewrite Hcols, (raw_importances_zero randn n Hzero).
  assert (Hmax : np_max (repeat 0 n) = Ok 0).
  { destruct n as [| n]; [lia |]. simpl. rewrite fold_left_Rmax_zeros. reflexivity. }
  rewrite Hmax. cbn [bind].
  assert (Hnan : map (fun x => np_true_divide x 0) (repeat 0 n) = repeat NaN n).
  { clear. induction n as [| n IH]; [reflexivity |].
    simpl. rewrite np_true_divide_zero_zero, IH. reflexivity. }
  rewrite Hnan. reflexivity.
Qed.

(** *** The order of the labels *)

Lemma StronglySorted_skipn {A : Type} (R : A -> A -> Prop) (m : nat) (l : list A) :
  StronglySorted R l -> StronglySorted R (skipn m l).
Proof.
  revert l. induction m as [| m IH]; intros l Hs; [exact Hs |].
  destruct l as [| a l]; [exact Hs |].
  apply StronglySorted_inv in Hs. destruct Hs as [Hs _]. apply IH. exact Hs.
Qed.

Lemma StronglySorted_impl_in {A : Type} (R R' : A -> A -> Prop) (l : list A) :
  (forall x y, In x l -> In y l -> R x y -> R' x y) ->
  StronglySorted R l -> StronglySorted R' l.
Proof.
  induction l as [| a l IH]; intros Himp Hs; [constructor |].
  apply StronglySorted_inv in Hs. destruct Hs as [Hs Hall].
  constructor.
  - apply IH; [| exact Hs]. intros x y Hx Hy. apply Himp; right; assumption.
  - rewrite List.Forall_forall in Hall |- *. intros y Hy.
    apply Himp; [left; reflexivity | right; exact Hy | apply Hall; exact Hy].
Qed.

Lemma last_skipn {A : Type} (m : nat) (l : list A) (d : A) :
  (m < length l)%nat -> List.last (skipn m l) d = List.last l d.
Proof.
  revert l. induction m as [| m IH]; intros l Hm; [reflexivity |].
  destruct l as [| a l]; [simpl in Hm; lia |].
  simpl in Hm. cbn [skipn]. rewrite IH by lia.
  destruct l as [| b l]; [simpl in Hm; lia | reflexivity].
Qed.

(** Under the same condition as for the normalisation, the channels whose
    labels are returned are in ascending order of importance, and the last of
    them has importance 1: the most important wavelength is the last one
    listed. *)
Theorem most_important_last (spectra_columns : list R) (randn : tensor)
    (h0 : heap) (n c : nat) :
  length spectra_columns = n ->
  length randn = n ->
  (c < n)%nat ->
  raw_importance randn c <> 0 ->
  exists (imp : list R) (top_indices : list nat),
    feature_importance_analysis spectra_columns randn h0
    = Ok (map Fin imp, map (fun i => nth i spectra_columns 0) top_indices)
    /\ StronglySorted (fun i j => nth i imp 0 <= nth j imp 0) top_indices
    /\ nth (List.last top_indices 0%nat) imp 0 = 1.
Proof.
  intros Hcols Hrandn Hc Hraw.
  assert (Hne : raw_importances randn n <> []).
  { unfold raw_importances. destruct n as [| n]; [lia |]. discriminate. }
  destruct (np_max_nonempty _ Hne) as [top Hmax].
  assert (Hpos : forall r, In r (raw_importances randn n) -> 0 <= r).
  { intros r Hr. apply in_map_iff in Hr. destruct Hr as [i [<- _]].
    apply raw_importance_nonneg. }
  assert (Hnz : top <> 0).
  { destruct (np_max_spec _ _ Hmax) as [_ Hle].
    assert (Hin : In (raw_importance randn c) (raw_importances randn n)).
    { apply in_map. apply in_seq. lia. }
    specialize (Hle _ Hin). pose proof (raw_importance_nonneg randn c). lra. }
  destruct (normalised_entries _ top Hmax Hpos Hnz) as [Htop [Hfin [Hrange Hone]]].
  set (imp := map (fun x => x / top) (raw_importances randn n)) in *.
  assert (Hlen : length imp = n).
  { unfold imp, raw_importances. rewrite !length_map, length_seq. reflexivity. }
  set (v := map Fin imp).
  assert (Hlenv : length v = n) by (unfold v; rewrite length_map; exact Hlen).
  pose proof (argsort_perm v) as Hperm. rewrite Hlenv in Hperm.
  pose proof (argsort_sorted v) as Hsorted.
  assert (Hidx : forall i, In i (argsort v) -> (i < n)%nat).
  { intros i Hi. apply (Permutation_in _ Hperm) in Hi. apply in_seq in Hi. lia. }
  assert (Hle : forall i j, In i (argsort v) -> In j (argsort v) ->
                  ascending v i j -> nth i imp 0 <= nth j imp 0).
  { intros i j Hi Hj Hij. unfold ascending, v in Hij.
    rewrite !nth_map_Fin in Hij by (rewrite Hlen; auto).
    apply np_leb_Fin. exact Hij. }
  assert (Hsorted' : StronglySorted (fun i j => nth i imp 0 <= nth j imp 0) (argsort v)).
  { apply (StronglySorted_impl_in (ascending v)); assumption. }
  assert (Hlena : length (argsort v) = n)
    by (rewrite (Permutation_length Hperm); apply length_seq).
  exists imp, (last_k 10 (argsort v)). split.
  { rewrite feature_importance_analysis_unfold by congruence.
    rewrite Hcols, Hmax. cbn [bind]. rewrite Hfin. reflexivity. }
  split; [apply StronglySorted_skipn; exact Hsorted' |].
  unfold last_k. rewrite last_skipn by lia.
  assert (Hnonempty : argsort v <> []).
  { intros E. rewrite E in Hlena. simpl in Hlena. lia. }
  pose proof (app_removelast_last 0%nat Hnonempty) as Hsplit.
  set (x := List.last (argsort v) 0%nat) in *.
  assert (Hx : In x (argsort v)).
  { rewrite Hsplit. apply in_or_app. right. left. reflexivity. }
  apply (In_nth _ _ 0) in Hone. destruct Hone as [j [Hj Hj1]]. rewrite Hlen in Hj.
  assert (Hjin : In j (argsort v)).
  { apply (Permutation_in _ (Permutation_sym Hperm)). apply in_seq. lia. }
  assert (Hup : nth x imp 0 <= 1).
  { apply Hrange. apply nth_In. rewrite Hlen. apply Hidx. exact Hx. }
  assert (Hlow : 1 <= nth x imp 0).
  { rewrite <- Hj1. rewrite Hsplit in Hjin. apply in_app_or in Hjin.
    destruct Hjin as [Hjin | [<- | []]]; [| lra].
    rewrite Hsplit in Hsorted'.
    apply (StronglySorted_app_inv _ _ _ Hsorted' j x Hjin). left. reflexivity. }
  lra.
Qed.

End Analysis.

(** *** A stable argsort

    An insertion sort on the index array, by [np_leb]; ties keep their
    order.  It meets what the analysis assumes of [np.argsort]. *)

Fixpoint insert_index (v : list npfloat) (i : nat) (sorted : list nat) : list nat :=
  match sorted with
  | [] => [i]
  | j :: rest =>
      if np_leb (nth i v NaN) (nth j v NaN) then i :: j :: rest
      else j :: insert_index v i rest
  end.

Definition stable_argsort (v : list npfloat) : list nat :=
  fold_right (insert_index v) [] (seq 0 (length v)).

Lemma np_leb_total (a b : npfloat) : np_leb a b = true \/ np_leb b a = true.
Proof.
  destruct a as [x | | |], b as [y | | |]; simpl; auto.
  destruct (Rle_dec x y), (Rle_dec y x); auto. lra.
Qed.

Lemma np_leb_trans (a b c : npfloat) :
  np_leb a b = true -> np_leb b c = true -> np_leb a c = true.
Proof.
  destruct a as [x | | |], b as [y | | |], c as [z | | |]; simpl; auto;
    try discriminate.
  destruct (Rle_dec x y), (Rle_dec y z), (Rle_dec x z); auto; try discriminate.
  lra.
Qed.

Lemma insert_index_perm (v : list npfloat) (i : nat) (l : list nat) :
  Permutation (insert_index v i l) (i :: l).
Proof.
  induction l as [| j l IH]; simpl; [reflexivity |].
  destruct (np_leb (nth i v NaN) (nth j v NaN)); [reflexivity |].
  rewrite IH. apply perm_swap.
Qed.

Lemma insert_index_sorted (v : list npfloat) (i : nat) (l : list nat) :
  StronglySorted (ascending v) l ->
  StronglySorted (ascending v) (insert_index v i l).
Proof.
  induction l as [| j l IH]; intros Hs; simpl.
  - constructor; constructor.
  - apply StronglySorted_inv in Hs. destruct Hs as [Hs Hall].
    destruct (np_leb (nth i v NaN) (nth j v NaN)) eqn:Hij.
    + constructor; [constructor; assumption |].
      constructor; [exact Hij |].
      rewrite List.Forall_forall in Hall |- *. intros k Hk.
      apply (np_leb_trans _ (nth j v NaN)); [exact Hij | apply Hall; exact Hk].
    + constructor; [apply IH; exact Hs |].
      rewrite List.Forall_forall in Hall |- *. intros k Hk.
      apply (Permutation_in _ (insert_index_perm v i l)) in Hk.
      destruct Hk as [<- | Hk]; [| apply Hall; exact Hk].
      destruct (np_leb_total (nth i v NaN) (nth j v NaN)) as [H | H];
        [congruence | exact H].
Qed.

Lemma stable_argsort_perm (v : list npfloat) :
  Permutation (stable_argsort v) (seq 0 (length v)).
Proof.
  unfold stable_argsort. induction (seq 0 (length v)) as [| i l IH]; simpl;
    [reflexivity |].
  rewrite insert_index_perm. constructor. exact IH.
Qed.

Lemma stable_argsort_sorted (v : list npfloat) :
  StronglySorted (ascending v) (stable_argsort v).
Proof.
  unfold stable_argsort. induction (seq 0 (length v)) as [| i l IH]; simpl;
    [constructor |].
  apply insert_index_sorted. exact IH.
Qed.

(** *** Runs on toy models *)

Definition identity_model (t : tensor) : tensor := t.

Definition constant_model (t : tensor) : tensor := [0].

Lemma perturbation_frame_witness :
  exists x : R,
    [1; 2] !! 1%nat = Some x
    /\ perturb_channels identity_model (length (@nil tensor)) (S (length (@nil tensor)))
         (seq 0 1) ([] ++ [[1; 2]; identity_model [1; 2]], repeat 0 2)
       = Ok (heap_after identity_model [] [1; 2] 1,
             importances_after identity_model [1; 2] 2 1)
    /\ perturb_channel identity_model (length (@nil tensor)) (S (length (@nil tensor))) 1
         (heap_after identity_model [] [1; 2] 1,
          importances_after identity_model [1; 2] 2 1)
       = Ok (heap_after identity_model [] [1; 2] 1
               ++ [perturbed [1; 2] 1; identity_model (perturbed [1; 2] 1)],
             <[1%nat := norm (tensor_sub (identity_model (perturbed [1; 2] 1))
                                         (identity_model [1; 2]))]>
               (importances_after identity_model [1; 2] 2 1))
    /\ perturbed [1; 2] 1 !! 1%nat = Some (x + 0.1)
    /\ (forall j : nat, j <> 1%nat -> perturbed [1; 2] 1 !! j = [1; 2] !! j)
    /\ (forall k : nat,
          heap_after identity_model [] [1; 2] k !! length (@nil tensor) = Some [1; 2]
          /\ heap_after identity_model [] [1; 2] k !! S (length (@nil tensor))
             = Some (identity_model [1; 2]))
    /\ perturb_channels identity_model (length (@nil tensor)) (S (length (@nil tensor)))
         (seq 0 2) ([] ++ [[1; 2]; identity_model [1; 2]], repeat 0 2)
       = Ok (heap_after identity_model [] [1; 2] 2,
             map (raw_importance identity_model [1; 2]) (seq 0 2)).
Proof.
  apply (perturbation_frame identity_model [] [1; 2] 2 1).
  - reflexivity.
  - lia.
Defined.

Lemma identity_raw_importance_nonzero : raw_importance identity_model [1; 2] 0 <> 0.
Proof.
  unfold raw_importance, identity_model, perturbed, norm. simpl.
  intros H. apply sqrt_eq_0 in H; nra.
Qed.

Lemma importance_normalised_witness :
  exists (imp : list R) (top_indices : list nat) (top : R),
    feature_importance_analysis identity_model stable_argsort [1100; 1102] [1; 2] []
    = Ok (map Fin imp, map (fun i => nth i [1100; 1102] 0) top_indices)
    /\ np_max (raw_importances identity_model [1; 2] 2) = Ok top
    /\ 0 < top
    /\ imp = map (fun i => raw_importance identity_model [1; 2] i / top) (seq 0 2)
    /\ (forall x, In x imp -> 0 <= x <= 1)
    /\ In 1 imp
    /\ length top_indices = Nat.min 10 2
    /\ List.NoDup top_indices
    /\ (forall i, In i top_indices -> (i < 2)%nat)
    /\ (forall i j, In i top_indices -> (j < 2)%nat -> ~ In j top_indices ->
          nth j imp 0 <= nth i imp 0).
Proof.
  apply (importance_normalised identity_model stable_argsort
           stable_argsort_perm stable_argsort_sorted [1100; 1102] [1; 2] [] 2 0).
  - reflexivity.
  - reflexivity.
  - lia.
  - exact identity_raw_importance_nonzero.
Defined.

Lemma constant_raw_importance (sample : tensor) (i : nat) :
  raw_importance constant_model sample i = 0.
Proof.
  unfold raw_importance, constant_model, norm. simpl.
  replace ((0 - 0) * (0 - 0) + 0) with 0 by ring. apply sqrt_0.
Qed.

(** C8, as stated, fails.  For a model whose output does not react to the
    probe (here a constant one) on three channels, every raw importance is 0,
    so is their maximum, and the array returned is NaN throughout: its
    maximum is not 1 and no entry lies in [0, 1].  Three labels are returned,
    not ten. *)
Lemma feature_importance_all_nan :
  feature_importance_analysis constant_model stable_argsort
    [1100; 1102; 1104] [0; 0; 0] []
  = Ok ([NaN; NaN; NaN], [1100; 1102; 1104]).
Proof.
  rewrite feature_importance_analysis_unfold by reflexivity.
  assert (Hraw : raw_importances constant_model [0; 0; 0] (length [1100; 1102; 1104])
                 = [0; 0; 0]).
  { unfold raw_importances. simpl. rewrite !constant_raw_importance. reflexivity. }
  rewrite Hraw.
  assert (Hmax : np_max [0; 0; 0] = Ok 0).
  { unfold np_max. simpl. rewrite !(Rmax_left 0 0) by lra. reflexivity. }
  rewrite Hmax. cbn [bind map].
  rewrite !np_true_divide_zero_zero. reflexivity.
Qed.

Lemma unresponsive_model_gives_nan_witness :
  feature_importance_analysis constant_model stable_argsort
    [1100; 1102; 1104] [0; 0; 0] []
  = Ok (repeat NaN 3,
        map (fun i => nth i [1100; 1102; 1104] 0)
            (last_k 10 (stable_argsort (repeat NaN 3)))).
Proof.
  apply (unresponsive_model_gives_nan constant_model stable_argsort
           [1100; 1102; 1104] [0; 0; 0] [] 3).
  - reflexivity.
  - reflexivity.
  - lia.
  - intros i _. apply constant_raw_importance.
Defined.

Lemma most_important_last_witness :
  exists (imp : list R) (top_indices : list nat),
    feature_importance_analysis identity_model stable_argsort [1100; 1102] [1; 2] []
    = Ok (map Fin imp, map (fun i => nth i [1100; 1102] 0) top_indices)
    /\ StronglySorted (fun i j => nth i imp 0 <= nth j imp 0) top_indices
    /\ nth (List.last top_indices 0%nat) imp 0 = 1.
Proof.
  apply (most_important_last identity_model stable_argsort
           stable_argsort_perm stable_argsort_sorted [1100; 1102] [1; 2] [] 2 0).
  - reflexivity.
  - reflexivity.
  - lia.
  - exact identity_raw_importance_nonzero.
Defined.

End Importance.

(** ** evaluate_model *)

Module Evaluate.

Import Numpy.
Import Preprocess.
Open Scope R_scope.

(** [DataLoader(dataset, batch_size=k, shuffle=False)]: consecutive slices of
    [k] samples, the last one shorter when [k] does not divide the length. *)
Fixpoint chunks {A : Type} (fuel k : nat) (l : list A) : list (list A) :=
  match fuel with
  | O => []
  | S fuel' =>
      match l with
      | [] => []
      | _ :: _ => firstn k l :: chunks fuel' k (skipn k l)
      end
  end.

Definition batches {A : Type} (k : nat) (l : list A) : list (list A) :=
  chunks (length l) k l.

(** The loader over [NIRSpectroscopyDataset(spectra, targets)]: each batch
    pairs the stacked spectra with the stacked targets. *)
Definition data_loader (batch_size : nat) (spectra targets : matrix)
  : list (matrix * matrix) :=
  combine (batches batch_size spectra) (batches batch_size targets).

Section EvaluateModel.

(** The forward pass on a batch, in evaluation mode under [no_grad]. *)
Variable model : matrix -> matrix.


End EvaluateModel.

Lemma concat_chunks {A : Type} (fuel k : nat) (l : list A) :
  (1 <= k)%nat -> (length l <= fuel)%nat -> concat (chunks fuel k l) = l.
Proof.
  intros Hk. revert l. induction fuel as [| fuel IH]; intros l Hl.
  - destruct l; [reflexivity | simpl in Hl; lia].
  - destruct l as [| a l]; [reflexivity |].
    cbn [chunks concat]. rewrite IH.
    + apply firstn_skipn.
    + rewrite length_skipn. simpl in Hl |- *. lia.
Qed.











End Evaluate.

(** ** The test size in binary64

    [n_test] takes [0.3 * n] exactly.  scikit-learn computes the product in
    binary64, where [0.3] is [0x1.3333333333333p-2], before taking the
    ceiling; the two agree on every sample count checked here. *)

Module SplitSizes.

Import Stdlib.Floats.Floats.

(** The least [k], searched upwards from [k], with [x <= k]. *)
Fixpoint ceil_from (x : float) (k fuel : nat) : nat :=
  match fuel with
  | O => k
  | S fuel' =>
      if (x <=? Trainer.float_of_nat k)%float then k
      else ceil_from x (S k) fuel'
  end.

Definition n_test_binary64 (n : nat) : nat :=
  ceil_from (0x1.3333333333333p-2 * Trainer.float_of_nat n)%float 0 n.

Example n_test_binary64_agrees :
  forallb (fun n => Nat.eqb (n_test_binary64 n) (Preprocess.n_test n)) (seq 0 2000)
  = true.
Proof. vm_compute. reflexivity. Qed.

Example n_test_80 : n_test_binary64 80 = 24%nat /\ Preprocess.n_train 80 = 56%nat.
Proof. split; vm_compute; reflexivity. Qed.

End SplitSizes.

(** ** NIRSpectroscopyDataset and the batches of a DataLoader *)

Module Batching.

Import Numpy.
Import Preprocess.
Import Evaluate.
Open Scope R_scope.

Record NIRSpectroscopyDataset : Type := {
  spectra : matrix;
  targets : matrix;
  transform : option (list R -> list R)
}.

(** [__len__] counts the spectra only. *)
Definition len (ds : NIRSpectroscopyDataset) : nat := length (spectra ds).

(** [__getitem__]: both arrays are indexed before the transform, if any, is
    applied to the spectrum. *)
Definition getitem (ds : NIRSpectroscopyDataset) (idx : nat)
  : result (list R * list R) :=
  match spectra ds !! idx with
  | None => Raise IndexError
  | Some spectrum =>
      match targets ds !! idx with
      | None => Raise IndexError
      | Some target =>
          match transform ds with
          | Some f => Ok (f spectrum, target)
          | None => Ok (spectrum, target)
          end
      end
  end.

Fixpoint mapM {A B : Type} (f : A -> result B) (l : list A) : result (list B) :=
  match l with
  | [] => Ok []
  | a :: rest =>
      let* b := f a in
      let* bs := mapM f rest in
      Ok (b :: bs)
  end.

(** One batch: the samples are fetched one by one and stacked. *)
Definition fetch (ds : NIRSpectroscopyDataset) (indices : list nat)
  : result (matrix * matrix) :=
  let* samples := mapM (getitem ds) indices in
  Ok (map fst samples, map snd samples).

(** [DataLoader(ds, batch_size, shuffle=False)], iterated to the end: the
    indices [0 .. len ds - 1] in consecutive slices. *)
Definition iterate (ds : NIRSpectroscopyDataset) (batch_size : nat)
  : result (list (matrix * matrix)) :=
  mapM (fetch ds) (batches batch_size (seq 0 (len ds))).

Lemma mapM_ok {A B : Type} (f : A -> result B) (g : A -> B) (l : list A) :
  (forall a, In a l -> f a = Ok (g a)) -> mapM f l = Ok (map g l).
Proof.
  induction l as [| a l IH]; intros H; [reflexivity |].
  cbn [mapM map]. rewrite (H a) by (left; reflexivity). cbn [bind].
  rewrite IH by (intros b Hb; apply H; right; exact Hb). reflexivity.
Qed.

Lemma mapM_raises {A B : Type} (f : A -> result B) (e : exn) (l : list A) :
  (forall a r, In a l -> f a = Raise r -> r = e) ->
  (exists a, In a l /\ f a = Raise e) ->
  mapM f l = Raise e.
Proof.
  induction l as [| a l IH]; intros Hall [x [Hx Hfx]]; [destruct Hx |].
  cbn [mapM]. destruct (f a) as [b | r] eqn:Hfa.
  - cbn [bind]. destruct Hx as [<- | Hx]; [congruence |].
    rewrite IH; [reflexivity | | exists x; auto].
    intros a' r' Ha'. apply Hall. right. exact Ha'.
  - cbn [bind]. rewrite (Hall a r) by (auto; left; reflexivity). reflexivity.
Qed.

Lemma chunks_map {A B : Type} (f : A -> B) (fuel k : nat) (l : list A) :
  chunks fuel k (map f l) = map (map f) (chunks fuel k l).
Proof.
  revert l. induction fuel as [| fuel IH]; intros l; [reflexivity |].
  destruct l as [| a l]; [reflexivity |].
  cbn [map chunks]. change (f a :: map f l) with (map f (a :: l)).
  rewrite firstn_map, skipn_map, IH. reflexivity.
Qed.

Lemma chunks_in {A : Type} (fuel k : nat) (l b : list A) (x : A) :
  In b (chunks fuel k l) -> In x b -> In x l.
Proof.
  revert l. induction fuel as [| fuel IH]; intros l Hb Hx; [destruct Hb |].
  destruct l as [| a l]; [destruct Hb |].
  cbn [chunks] in Hb. rewrite <- (firstn_skipn k (a :: l)).
  apply in_or_app. destruct Hb as [<- | Hb]; [left; exact Hx |].
  right. apply (IH _ Hb Hx).
Qed.

Lemma chunks_cover {A : Type} (fuel k : nat) (l : list A) (x : A) :
  (1 <= k)%nat -> (length l <= fuel)%nat -> In x l ->
  exists b, In b (chunks fuel k l) /\ In x b.
Proof.
  intros Hk Hl Hx. rewrite <- (concat_chunks fuel k l Hk Hl) in Hx.
  apply in_concat in Hx. destruct Hx as [b [Hb Hxb]]. exists b. auto.
Qed.

Lemma map_nth_seq {A : Type} (l : list A) (d : A) :
  map (fun i => nth i l d) (seq 0 (length l)) = l.
Proof.
  induction l as [| a l IH]; [reflexivity |].
  cbn [length seq map nth]. f_equal.
  rewrite <- seq_shift, map_map. exact IH.
Qed.

Lemma combine_map {A B C : Type} (f : A -> B) (g : A -> C) (l : list A) :
  combine (map f l) (map g l) = map (fun a => (f a, g a)) l.
Proof. induction l as [| a l IH]; [reflexivity | simpl; rewrite IH; reflexivity]. Qed.

Lemma getitem_ok (ds : NIRSpectroscopyDataset) (i : nat) :
  transform ds = None ->
  (i < length (spectra ds))%nat -> (i < length (targets ds))%nat ->
  getitem ds i = Ok (nth i (spectra ds) [], nth i (targets ds) []).
Proof.
  intros Htr Hs Ht. unfold getitem.
  destruct (nth_lookup_or_length (spectra ds) i []) as [-> | H]; [| lia].
  destruct (nth_lookup_or_length (targets ds) i []) as [-> | H]; [| lia].
  rewrite Htr. reflexivity.
Qed.

Lemma getitem_raises (ds : NIRSpectroscopyDataset) (i : nat) (e : exn) :
  getitem ds i = Raise e -> e = IndexError.
Proof.
  unfold getitem. destruct (spectra ds !! i); [| intros [= <-]; reflexivity].
  destruct (targets ds !! i); [| intros [= <-]; reflexivity].
  destruct (transform ds); discriminate.
Qed.

Lemma fetch_raises (ds : NIRSpectroscopyDataset) (indices : list nat) (e : exn) :
  fetch ds indices = Raise e -> e = IndexError.
Proof.
  unfold fetch. destruct (mapM (getitem ds) indices) as [samples | r] eqn:Hm;
    [discriminate |].
  cbn [bind]. intros [= <-]. revert r Hm.
  induction indices as [| i l IH]; intros r Hm; [discriminate |].
  cbn [mapM] in Hm. destruct (getitem ds i) as [b | r'] eqn:Hg.
  - cbn [bind] in Hm. destruct (mapM (getitem ds) l) as [bs | r''] eqn:Hl;
      [discriminate |].
    cbn [bind] in Hm. injection Hm as <-. apply (IH r'' eq_refl).
  - cbn [bind] in Hm. injection Hm as <-. apply (getitem_raises ds i r' Hg).
Qed.

(** A loader with a positive batch size serves the samples in order, batch
    by batch.  The data set's length is that of its spectra: targets beyond
    it are never served. *)
Theorem iterate_serves_samples (ds : NIRSpectroscopyDataset) (batch_size : nat) :
  (1 <= batch_size)%nat ->
  transform ds = None ->
  (length (spectra ds) <= length (targets ds))%nat ->
  iterate ds batch_size
  = Ok (data_loader batch_size (spectra ds)
          (firstn (length (spectra ds)) (targets ds))).
Proof.
  intros _ Htr Hlen. unfold iterate, len.
  set (n := length (spectra ds)).
  set (fS := fun i => nth i (spectra ds) []).
  set (fT := fun i => nth i (targets ds) []).
  assert (Hfetch : forall b, In b (batches batch_size (seq 0 n)) ->
                     fetch ds b = Ok (map fS b, map fT b)).
  { intros b Hb. unfold fetch.
    rewrite (mapM_ok (getitem ds) (fun i => (fS i, fT i))).
    - cbn [bind]. rewrite !map_map. reflexivity.
    - intros i Hi. unfold batches in Hb.
      apply (chunks_in _ _ _ _ i Hb) in Hi. apply in_seq in Hi.
      apply getitem_ok; [exact Htr | unfold n in Hi; lia | unfold n in Hi; lia]. }
  rewrite (mapM_ok (fetch ds) (fun b => (map fS b, map fT b)) _ Hfetch).
  f_equal. unfold data_loader, batches.
  rewrite length_firstn, Nat.min_l by exact Hlen. fold n. rewrite length_seq.
  assert (HS : spectra ds = map fS (seq 0 n)) by (symmetry; apply map_nth_seq).
  assert (HT : firstn n (targets ds) = map fT (seq 0 n)).
  { rewrite <- (map_nth_seq (firstn n (targets ds)) []).
    rewrite length_firstn, Nat.min_l by exact Hlen.
    apply map_ext_in. intros i Hi. apply in_seq in Hi.
    unfold fT. rewrite nth_firstn.
    destruct (Nat.ltb_spec i n) as [_ | Hge]; [reflexivity | lia]. }
  rewrite HT.
  replace (chunks n batch_size (spectra ds))
    with (chunks n batch_size (map fS (seq 0 n))) by (rewrite <- HS; reflexivity).
  rewrite !chunks_map, combine_map. reflexivity.
Qed.

Lemma iterate_serves_samples_witness :
  iterate {| spectra := [[1]; [2]; [3]]; targets := [[4]; [5]; [6]; [7]];
             transform := None |} 2
  = Ok (data_loader 2 [[1]; [2]; [3]] (firstn (length [[1]; [2]; [3]])
                                              [[4]; [5]; [6]; [7]])).
Proof.
  apply (iterate_serves_samples
           {| spectra := [[1]; [2]; [3]]; targets := [[4]; [5]; [6]; [7]];
              transform := None |} 2).
  - lia.
  - reflexivity.
  - simpl. lia.
Defined.

(** Nothing compares the two lengths when the data set is built: with fewer
    targets than spectra, iterating the loader raises [IndexError] when it
    reaches the first sample without a target. *)
Theorem iterate_missing_targets (ds : NIRSpectroscopyDataset) (batch_size : nat) :
  (1 <= batch_size)%nat ->
  (length (targets ds) < length (spectra ds))%nat ->
  iterate ds batch_size = Raise IndexError.
Proof.
  intros Hk Hlen. unfold iterate, len.
  apply mapM_raises; [intros b r _ Hr; apply (fetch_raises ds b r Hr) |].
  destruct (chunks_cover (length (seq 0 (length (spectra ds)))) batch_size
              (seq 0 (length (spectra ds))) (length (targets ds)) Hk)
    as [b [Hb Hin]]; [lia | apply in_seq; lia |].
  exists b. split; [exact Hb |].
  unfold fetch. rewrite (mapM_raises (getitem ds) IndexError b); [reflexivity | |].
  - intros i r _ Hr. apply (getitem_raises ds i r Hr).
  - exists (length (targets ds)). split; [exact Hin |].
    unfold getitem.
    destruct (spectra ds !! length (targets ds)); [| reflexivity].
    rewrite (lookup_ge_None_2 (targets ds) (length (targets ds))) by lia.
    reflexivity.
Qed.

Lemma iterate_missing_targets_witness :
  iterate {| spectra := [[1]; [2]; [3]]; targets := [[4]; [5]];
             transform := None |} 2
  = Raise IndexError.
Proof.
  apply (iterate_missing_targets
           {| spectra := [[1]; [2]; [3]]; targets := [[4]; [5]];
              transform := None |} 2).
  - lia.
  - simpl. lia.
Defined.

(** *** Batch sizes *)

Definition batch_sizes (k n : nat) : list nat :=
  repeat k (n / k) ++ (if Nat.eqb (n mod k) 0 then [] else [n mod k]).

Lemma chunks_lengths {A : Type} (fuel k : nat) (l : list A) :
  (1 <= k)%nat -> (length l <= fuel)%nat ->
  map (@length A) (chunks fuel k l) = batch_sizes k (length l).
Proof.
  intros Hk. revert l. induction fuel as [| fuel IH]; intros l Hl.
  - destruct l; [| simpl in Hl; lia]. unfold batch_sizes. simpl length.
    rewrite Nat.div_small, Nat.mod_small by lia. reflexivity.
  - destruct l as [| a l].
    + unfold batch_sizes. simpl length.
      rewrite Nat.div_small, Nat.mod_small by lia. reflexivity.
    + cbn [chunks map]. rewrite IH by (rewrite length_skipn; simpl in *; lia).
      rewrite length_firstn, length_skipn. set (n := length (a :: l)).
      assert (Hn : (1 <= n)%nat) by (unfold n; simpl; lia).
      unfold batch_sizes.
      destruct (Nat.lt_ge_cases n k) as [Hsmall | Hbig].
      * replace (n - k)%nat with 0%nat by lia.
        rewrite (Nat.div_small 0), (Nat.mod_small 0) by lia.
        rewrite (Nat.div_small n), (Nat.mod_small n) by lia.
        destruct (Nat.eqb_spec n 0) as [E | _]; [lia |].
        simpl. f_equal. lia.
      * assert (Hd : (n / k = S ((n - k) / k))%nat).
        { replace n with (n - k + 1 * k)%nat at 1 by lia.
          rewrite Nat.div_add by lia. lia. }
        assert (Hm : (n mod k = (n - k) mod k)%nat).
        { replace n with (n - k + 1 * k)%nat at 1 by lia.
          apply Nat.Div0.mod_add. }
        rewrite Hd, Hm. simpl. f_equal. lia.
Qed.

(** A loader with batch size [k >= 1] cuts its [n] samples, in the order it
    visits them, into [n / k] batches of [k] samples followed, when [k] does
    not divide [n], by one batch with the [n mod k] remaining samples; no
    sample is dropped or served twice. *)
Theorem batches_partition {A : Type} (k : nat) (l : list A) :
  (1 <= k)%nat ->
  concat (batches k l) = l
  /\ map (@length A) (batches k l) = batch_sizes k (length l).
Proof.
  intros Hk. unfold batches. split.
  - apply concat_chunks; [exact Hk | lia].
  - apply chunks_lengths; [exact Hk | lia].
Qed.

Lemma batches_partition_witness :
  concat (batches 8 (seq 0 19)) = seq 0 19
  /\ map (@length nat) (batches 8 (seq 0 19)) = batch_sizes 8 (length (seq 0 19)).
Proof.
  apply (batches_partition 8 (seq 0 19)). lia.
Defined.

(** *** Which tables can be trained on *)

Lemma batch_sizes_in (k n s : nat) :
  In s (batch_sizes k n) -> s = k \/ (s = (n mod k)%nat /\ s <> 0%nat).
Proof.
  unfold batch_sizes. intros H. apply in_app_or in H. destruct H as [H | H].
  - left. apply (repeat_spec _ _ _ H).
  - destruct (Nat.eqb_spec (n mod k) 0) as [E | Hne]; [destruct H |].
    destruct H as [<- | []]. right. split; [reflexivity | exact Hne].
Qed.

Lemma batch_sizes_remainder (k n : nat) :
  (n mod k)%nat <> 0%nat -> In (n mod k)%nat (batch_sizes k n).
Proof.
  intros Hne. unfold batch_sizes. apply in_or_app. right.
  destruct (Nat.eqb_spec (n mod k) 0) as [E | _]; [contradiction | left; reflexivity].
Qed.

(** The train loader has batch size 8 and keeps the last, shorter batch.  For
    a table of [n] samples, whatever the order of an epoch, every batch of the
    epoch passes the model in training mode when [n_train n mod 8] is not 1;
    when it is 1, the epoch has a batch of a single sample, which the model
    rejects in training mode. *)
Theorem training_batches
    (permutation : Z -> nat -> list nat) (spectra targets : matrix) (n ds dt : nat) :
  length spectra = n -> length targets = n -> (2 <= n)%nat ->
  rectangular ds spectra -> (2 <= ds)%nat ->
  rectangular dt targets -> dt <> 0%nat ->
  Permutation (permutation random_state n) (seq 0 n) ->
  exists r : Loaded,
    load_and_preprocess_data permutation spectra targets = Ok r
    /\ length (X_train r) = n_train n
    /\ forall rows : matrix,
         Permutation rows (X_train r) ->
         ((n_train n mod 8)%nat = 1%nat ->
            exists b, In b (batches 8 rows)
              /\ Model.forward (Model.train (Model.init ds dt)) [length b; ds]
                 = Raise ValueError)
         /\ ((n_train n mod 8)%nat <> 1%nat ->
               forall b, In b (batches 8 rows) ->
                 Model.forward (Model.train (Model.init ds dt)) [length b; ds]
                 = Ok [length b; dt]).
Proof.
  intros Hs Ht Hn HXs Hds HXt Hdt Hperm.
  eexists. split.
  { apply (load_and_preprocess_data_ok permutation spectra targets n ds dt);
      try assumption. lia. }
  cbn [X_train].
  assert (Hlen : length (safe_indexing [] (standardised spectra)
                           (ind_train permutation n)) = n_train n).
  { unfold safe_indexing. rewrite length_map.
    apply (ind_train_length permutation n Hperm Hn). }
  split; [exact Hlen |].
  intros rows Hrows.
  assert (HL : length rows = n_train n)
    by (rewrite (Permutation_length Hrows); exact Hlen).
  destruct (batches_partition 8 rows) as [_ Hsizes]; [lia |].
  rewrite HL in Hsizes. split.
  - intros Hone.
    assert (Hin : In 1%nat (map (@length (list R)) (batches 8 rows))).
    { rewrite Hsizes. pose proof (batch_sizes_remainder 8 (n_train n)) as Hrem.
      rewrite Hone in Hrem. apply Hrem. lia. }
    apply in_map_iff in Hin. destruct Hin as [b [Hb Hin]].
    exists b. split; [exact Hin |]. rewrite Hb.
    apply Model.forward_single_training. exact Hds.
  - intros Hnot b Hb.
    assert (Hin : In (length b) (batch_sizes 8 (n_train n)))
      by (rewrite <- Hsizes; apply in_map; exact Hb).
    apply batch_sizes_in in Hin.
    apply Model.forward_training_batch; [exact Hds | lia].
Qed.

Lemma training_batches_witness :
  exists r : Loaded,
    load_and_preprocess_data (fun _ k => seq 0 k) (repeat [1; 2] 13) (repeat [3] 13)
    = Ok r
    /\ length (X_train r) = n_train 13
    /\ forall rows : matrix,
         Permutation rows (X_train r) ->
         ((n_train 13 mod 8)%nat = 1%nat ->
            exists b, In b (batches 8 rows)
              /\ Model.forward (Model.train (Model.init 2 1)) [length b; 2%nat]
                 = Raise ValueError)
         /\ ((n_train 13 mod 8)%nat <> 1%nat ->
               forall b, In b (batches 8 rows) ->
                 Model.forward (Model.train (Model.init 2 1)) [length b; 2%nat]
                 = Ok [length b; 1%nat]).
Proof.
  apply (training_batches (fun _ k => seq 0 k) (repeat [1; 2] 13) (repeat [3] 13)
           13 2 1); try reflexivity; try lia.
  - repeat constructor.
  - repeat constructor.
Defined.

Example thirteen_samples_leave_a_single_batch :
  n_train 13 = 9%nat /\ batch_sizes 8 (n_train 13) = [8; 1]%nat.
Proof. split; reflexivity. Qed.

End Batching.

(** ** save_predictions and the end of main *)

Module Report.

Import Numpy.
Import Preprocess.
Import Stdlib.Strings.String.
Import Stdlib.Strings.Ascii.
Open Scope R_scope.

(** Python strings are kept as their UTF-8 bytes. *)

(** A Python [dict] with string keys: assignment to a key that is present
    replaces its value in place, a new key goes to the end. *)
Fixpoint dict_set {V : Type} (k : string) (v : V) (d : list (string * V))
  : list (string * V) :=
  match d with
  | [] => [(k, v)]
  | (k', v') :: rest =>
      if String.eqb k' k then (k', v) :: rest else (k', v') :: dict_set k v rest
  end.

Fixpoint dict_get {V : Type} (k : string) (d : list (string * V)) : option V :=
  match d with
  | [] => None
  | (k', v) :: rest => if String.eqb k' k then Some v else dict_get k rest
  end.

Inductive error : Type :=
| Builtin (e : exn)
| KeyError (key : string).

Inductive outcome (A : Type) : Type :=
| Done (a : A)
| Failed (e : error).

Arguments Done {A} a.
Arguments Failed {A} e.

(** What the code does to the outside world, in order. *)
Inductive event : Type :=
| WriteCsv (path : string) (df : list (string * list R))
    (stats : list (string * npfloat))
| PrintSaved (path : string)
| PrintStatsHeader
| PrintStats (component : string) (mse r2 mae : npfloat)
| TorchSave (path : string)
| PrintModelSaved
| PrintFinished
| PrintError (e : error).

(** [a[:, i]] *)
Definition column_of (i : nat) (a : matrix) : outcome (list R) :=
  if forallb (fun row => Nat.ltb i (List.length row)) a
  then Done (map (fun row => nth i row 0) a)
  else Failed (Builtin IndexError).

Fixpoint zip_minus (a b : list R) {struct a} : list R :=
  match a, b with
  | x :: a', y :: b' => x - y :: zip_minus a' b'
  | _, _ => []
  end.

(** [a - b] on one-dimensional arrays: equal lengths, or one of them of
    length 1 and broadcast. *)
Definition np_subtract (a b : list R) : outcome (list R) :=
  if Nat.eqb (List.length a) (List.length b) then Done (zip_minus a b)
  else
    match a, b with
    | [x], _ => Done (map (fun y => x - y) b)
    | _, [y] => Done (map (fun x => x - y) a)
    | _, _ => Failed (Builtin ValueError)
    end.

(** The first loop: three columns per component. *)
Fixpoint build_data (predictions targets : matrix) (i : nat)
    (component_names : list string) (data : list (string * list R))
  : outcome (list (string * list R)) :=
  match component_names with
  | [] => Done data
  | component :: rest =>
      match column_of i targets with
      | Failed e => Failed e
      | Done t =>
          let data := dict_set (component ++ "_真实值")%string t data in
          match column_of i predictions with
          | Failed e => Failed e
          | Done p =>
              let data := dict_set (component ++ "_预测值")%string p data in
              match np_subtract p t with
              | Failed e => Failed e
              | Done err =>
                  let data := dict_set (component ++ "_误差")%string err data in
                  build_data predictions targets (S i) rest data
              end
          end
      end
  end.

(** [pd.DataFrame(data)]: the columns must have one length. *)
Definition same_lengths (data : list (string * list R)) : bool :=
  match data with
  | [] => true
  | (_, col) :: rest =>
      forallb (fun kv => Nat.eqb (List.length (snd kv)) (List.length col)) rest
  end.

(** [sklearn.metrics.mean_squared_error]: the two arrays must have one
    length and at least one sample. *)
Definition mean_squared_error (y_true y_pred : list R) : outcome npfloat :=
  if negb (Nat.eqb (List.length y_true) (List.length y_pred))
  then Failed (Builtin ValueError)
  else if Nat.eqb (List.length y_true) 0 then Failed (Builtin ValueError)
  else Done (Fin (np_mean (map (fun d => d * d) (zip_minus y_true y_pred)))).

Definition mean_absolute_error (y_true y_pred : list R) : npfloat :=
  Fin (np_mean (map Rabs (zip_minus y_pred y_true))).

(** *** Dictionaries *)

Lemma dict_get_set_eq {V : Type} (k : string) (v : V) (d : list (string * V)) :
  dict_get k (dict_set k v d) = Some v.
Proof.
  induction d as [| [k' v'] d IH]; simpl.
  - rewrite String.eqb_refl. reflexivity.
  - destruct (String.eqb_spec k' k) as [E | Hne]; simpl.
    + rewrite E, String.eqb_refl. reflexivity.
    + destruct (String.eqb_spec k' k) as [E | _]; [contradiction | exact IH].
Qed.

Lemma dict_get_set_ne {V : Type} (k k' : string) (v : V) (d : list (string * V)) :
  k <> k' -> dict_get k (dict_set k' v d) = dict_get k d.
Proof.
  intros Hne. induction d as [| [k0 v0] d IH]; simpl.
  - destruct (String.eqb_spec k' k) as [E | _]; [congruence | reflexivity].
  - destruct (String.eqb_spec k0 k') as [E | Hne']; simpl.
    + destruct (String.eqb_spec k0 k) as [E' | _]; [congruence | reflexivity].
    + destruct (String.eqb_spec k0 k) as [_ | _]; [reflexivity | exact IH].
Qed.

Lemma dict_get_set_is_Some {V : Type} (k k' : string) (v : V) (d : list (string * V)) :
  is_Some (dict_get k d) -> is_Some (dict_get k (dict_set k' v d)).
Proof.
  intros H. destruct (String.eqb_spec k k') as [-> | Hne].
  - rewrite dict_get_set_eq. eexists. reflexivity.
  - rewrite dict_get_set_ne by exact Hne. exact H.
Qed.

Lemma dict_get_In {V : Type} (k : string) (v : V) (d : list (string * V)) :
  dict_get k d = Some v -> exists k', In (k', v) d.
Proof.
  induction d as [| [k0 v0] d IH]; simpl; [discriminate |].
  destruct (String.eqb k0 k).
  - intros [= <-]. exists k0. left. reflexivity.
  - intros H. destruct (IH H) as [k' Hin]. exists k'. right. exact Hin.
Qed.

Lemma dict_set_values {V : Type} (P : V -> Prop) (k : string) (v : V)
    (d : list (string * V)) :
  P v -> Forall (fun kv => P (snd kv)) d ->
  Forall (fun kv => P (snd kv)) (dict_set k v d).
Proof.
  intros Hv Hd. induction Hd as [| [k0 v0] d H0 Hd IH]; simpl.
  - constructor; [exact Hv | constructor].
  - destruct (String.eqb k0 k); constructor; try assumption.
Qed.

Lemma dict_set_keys {V : Type} (P : string -> Prop) (k : string) (v : V)
    (d : list (string * V)) :
  P k -> Forall (fun kv => P (fst kv)) d ->
  Forall (fun kv => P (fst kv)) (dict_set k v d).
Proof.
  intros Hk Hd. induction Hd as [| [k0 v0] d H0 Hd IH]; simpl.
  - constructor; [exact Hk | constructor].
  - destruct (String.eqb k0 k); constructor; try assumption.
Qed.

Lemma dict_get_key {V : Type} (P : string -> Prop) (k : string) (v : V)
    (d : list (string * V)) :
  Forall (fun kv => P (fst kv)) d -> dict_get k d = Some v -> P k.
Proof.
  intros Hd. induction Hd as [| [k0 v0] d H0 Hd IH]; simpl; [discriminate |].
  destruct (String.eqb_spec k0 k) as [<- | _]; [intros _; exact H0 | exact IH].
Qed.

(** *** The last byte of a key *)

Fixpoint last_byte (s : string) : option ascii :=
  match s with
  | EmptyString => None
  | String a s' =>
      match s' with
      | EmptyString => Some a
      | String _ _ => last_byte s'
      end
  end.

Lemma last_byte_append (a b : string) :
  b <> EmptyString -> last_byte (a ++ b)%string = last_byte b.
Proof.
  intros Hb. induction a as [| c a IH]; [reflexivity |].
  cbn [append last_byte]. rewrite IH.
  destruct (a ++ b)%string eqn:E; [| reflexivity].
  destruct a; simpl in E; [congruence | discriminate E].
Qed.

(** The second byte of the superscript two. *)
Definition superscript_tail : ascii := ascii_of_nat 178.

Definition plain_key (k : string) : Prop := last_byte k <> Some superscript_tail.

Lemma superscript_key_not_plain (component : string) :
  ~ plain_key (component ++ "_R²")%string.
Proof.
  unfold plain_key. rewrite last_byte_append by discriminate.
  intros H. apply H. reflexivity.
Qed.

Lemma stats_keys_plain (component : string) :
  plain_key (component ++ "_MSE")%string
  /\ plain_key (component ++ "_R2")%string
  /\ plain_key (component ++ "_MAE")%string.
Proof.
  unfold plain_key. rewrite !last_byte_append by discriminate.
  repeat split; discriminate.
Qed.

Section SavePredictions.

(** [sklearn.metrics.r2_score], on arrays that [mean_squared_error] has
    accepted. *)
Variable r2_score : list R -> list R -> npfloat.

(** The second loop: three entries of [stats] per component. *)
Fixpoint build_stats (df : list (string * list R)) (component_names : list string)
    (stats : list (string * npfloat)) : outcome (list (string * npfloat)) :=
  match component_names with
  | [] => Done stats
  | component :: rest =>
      match dict_get (component ++ "_真实值")%string df with
      | None => Failed (KeyError (component ++ "_真实值")%string)
      | Some y_true =>
          match dict_get (component ++ "_预测值")%string df with
          | None => Failed (KeyError (component ++ "_预测值")%string)
          | Some y_pred =>
              match mean_squared_error y_true y_pred with
              | Failed e => Failed e
              | Done mse =>
                  let stats := dict_set (component ++ "_MSE")%string mse stats in
                  let stats :=
                    dict_set (component ++ "_R2")%string (r2_score y_true y_pred) stats in
                  let stats :=
                    dict_set (component ++ "_MAE")%string
                             (mean_absolute_error y_true y_pred) stats in
                  build_stats df rest stats
              end
          end
      end
  end.

(** The last loop: the format string reads three entries of [stats], left to
    right, before anything is printed. *)
Fixpoint print_stats (stats : list (string * npfloat)) (component_names : list string)
  : list event * outcome unit :=
  match component_names with
  | [] => ([], Done tt)
  | component :: rest =>
      match dict_get (component ++ "_MSE")%string stats with
      | None => ([], Failed (KeyError (component ++ "_MSE")%string))
      | Some mse =>
          match dict_get (component ++ "_R²")%string stats with
          | None => ([], Failed (KeyError (component ++ "_R²")%string))
          | Some r2 =>
              match dict_get (component ++ "_MAE")%string stats with
              | None => ([], Failed (KeyError (component ++ "_MAE")%string))
              | Some mae =>
                  let (events, r) := print_stats stats rest in
                  (PrintStats component mse r2 mae :: events, r)
              end
          end
      end
  end.

(** [save_predictions]: the events it causes and how it ends.  Opening and
    writing the file is taken to succeed. *)
Definition save_predictions (predictions targets : matrix)
    (component_names : list string) (file_path : string)
  : list event * outcome unit :=
  match build_data predictions targets 0 component_names [] with
  | Failed e => ([], Failed e)
  | Done data =>
      if negb (same_lengths data) then ([], Failed (Builtin ValueError))
      else
        match build_stats data component_names [] with
        | Failed e => ([], Failed e)
        | Done stats =>
            let (events, r) := print_stats stats component_names in
            (WriteCsv file_path data stats :: PrintSaved file_path
               :: PrintStatsHeader :: events, r)
        end
  end.

(** The end of [main]: [stages] stands for everything in the [try] block
    before the call of [save_predictions], with the events it caused and
    either the predictions and targets it produced or the exception it
    raised.  The result is the events of the run and the exit status. *)
Definition component_names : list string :=
  ["水分"; "油脂"; "蛋白质"; "淀粉"]%string.

Definition main (stages : list event * outcome (matrix * matrix)) : list event * Z :=
  let (events, r) := stages in
  match r with
  | Failed e => ((events ++ [PrintError e])%list, 1%Z)
  | Done (predictions, targets) =>
      let (events', r') :=
        save_predictions predictions targets component_names "predictions.csv"%string in
      match r' with
      | Failed e => ((events ++ events' ++ [PrintError e])%list, 1%Z)
      | Done _ =>
          ((events ++ events'
              ++ [TorchSave "nir_spectroscopy_model.pth"%string;
                  PrintModelSaved; PrintFinished])%list, 0%Z)
      end
  end.

(** *** The keys of [stats] *)

Lemma build_stats_keys (df : list (string * list R)) (names : list string)
    (stats0 stats : list (string * npfloat)) :
  build_stats df names stats0 = Done stats ->
  Forall (fun kv => plain_key (fst kv)) stats0 ->
  Forall (fun kv => plain_key (fst kv)) stats.
Proof.
  revert stats0. induction names as [| c names IH]; intros stats0 Hb H0.
  - injection Hb as <-. exact H0.
  - cbn [build_stats] in Hb.
    destruct (dict_get (c ++ "_真实值")%string df) as [y_true |]; [| discriminate].
    destruct (dict_get (c ++ "_预测值")%string df) as [y_pred |]; [| discriminate].
    destruct (mean_squared_error y_true y_pred) as [mse | e]; [| discriminate].
    destruct (stats_keys_plain c) as [H1 [H2 H3]].
    apply (IH _ Hb). repeat apply dict_set_keys; assumption.
Qed.

Lemma build_stats_keeps (df : list (string * list R)) (names : list string)
    (stats0 stats : list (string * npfloat)) (k : string) :
  build_stats df names stats0 = Done stats ->
  is_Some (dict_get k stats0) -> is_Some (dict_get k stats).
Proof.
  revert stats0. induction names as [| c names IH]; intros stats0 Hb H0.
  - injection Hb as <-. exact H0.
  - cbn [build_stats] in Hb.
    destruct (dict_get (c ++ "_真实值")%string df) as [y_true |]; [| discriminate].
    destruct (dict_get (c ++ "_预测值")%string df) as [y_pred |]; [| discriminate].
    destruct (mean_squared_error y_true y_pred) as [mse | e]; [| discriminate].
    apply (IH _ Hb). repeat apply dict_get_set_is_Some. exact H0.
Qed.

Lemma build_stats_first (df : list (string * list R)) (c : string)
    (names : list string) (stats : list (string * npfloat)) :
  build_stats df (c :: names) [] = Done stats ->
  is_Some (dict_get (c ++ "_MSE")%string stats).
Proof.
  intros Hb. cbn [build_stats] in Hb.
  destruct (dict_get (c ++ "_真实值")%string df) as [y_true |]; [| discriminate].
  destruct (dict_get (c ++ "_预测值")%string df) as [y_pred |]; [| discriminate].
  destruct (mean_squared_error y_true y_pred) as [mse | e]; [| discriminate].
  apply (build_stats_keeps _ _ _ _ _ Hb).
  do 2 apply dict_get_set_is_Some. rewrite dict_get_set_eq. eexists. reflexivity.
Qed.

Lemma superscript_key_missing (stats : list (string * npfloat)) (c : string) :
  Forall (fun kv => plain_key (fst kv)) stats ->
  dict_get (c ++ "_R²")%string stats = None.
Proof.
  intros Hkeys. destruct (dict_get (c ++ "_R²")%string stats) as [v |] eqn:E;
    [| reflexivity].
  exfalso. apply (superscript_key_not_plain c).
  apply (dict_get_key plain_key _ v stats Hkeys E).
Qed.

Lemma print_stats_fails (stats : list (string * npfloat)) (c : string)
    (names : list string) :
  Forall (fun kv => plain_key (fst kv)) stats ->
  print_stats stats (c :: names)
  = ([], Failed (match dict_get (c ++ "_MSE")%string stats with
                 | Some _ => KeyError (c ++ "_R²")%string
                 | None => KeyError (c ++ "_MSE")%string
                 end)).
Proof.
  intros Hkeys. cbn [print_stats].
  destruct (dict_get (c ++ "_MSE")%string stats); [| reflexivity].
  rewrite (superscript_key_missing stats c Hkeys). reflexivity.
Qed.

(** *** The first two loops on well-formed arrays *)

Lemma column_of_ok (d i : nat) (a : matrix) :
  rectangular d a -> (i < d)%nat ->
  column_of i a = Done (map (fun row => nth i row 0) a).
Proof.
  intros Ha Hi. unfold column_of.
  assert (H : forallb (fun row => Nat.ltb i (List.length row)) a = true).
  { apply forallb_forall. intros row Hrow.
    unfold rectangular in Ha. rewrite List.Forall_forall in Ha.
    rewrite (Ha row Hrow). apply Nat.ltb_lt. exact Hi. }
  rewrite H. reflexivity.
Qed.

Lemma zip_minus_length (a b : list R) :
  List.length a = List.length b -> List.length (zip_minus a b) = List.length a.
Proof.
  revert b. induction a as [| x a IH]; intros [| y b] H; try discriminate H;
    [reflexivity |].
  simpl. f_equal. apply IH. simpl in H. lia.
Qed.

Definition columns_of_length (n : nat) (data : list (string * list R)) : Prop :=
  Forall (fun kv => List.length (snd kv) = n) data.

Lemma build_data_ok (predictions targets : matrix) (n d : nat)
    (names : list string) (i : nat) (data0 : list (string * list R)) :
  rectangular d predictions -> rectangular d targets ->
  List.length predictions = n -> List.length targets = n ->
  (i + List.length names <= d)%nat ->
  columns_of_length n data0 ->
  exists data,
    build_data predictions targets i names data0 = Done data
    /\ columns_of_length n data
    /\ (forall k, is_Some (dict_get k data0) -> is_Some (dict_get k data))
    /\ (forall c, In c names ->
          is_Some (dict_get (c ++ "_真实值")%string data)
          /\ is_Some (dict_get (c ++ "_预测值")%string data)).
Proof.
  intros Hp Ht Hnp Hnt. revert i data0.
  induction names as [| c names IH]; intros i data0 Hi H0.
  - exists data0. split; [reflexivity |]. split; [exact H0 |].
    split; [auto | intros c []].
  - cbn [build_data]. simpl in Hi.
    rewrite (column_of_ok d i targets Ht) by lia.
    rewrite (column_of_ok d i predictions Hp) by lia.
    set (t := map (fun row => nth i row 0) targets).
    set (p := map (fun row => nth i row 0) predictions).
    assert (Hlt : List.length t = n) by (unfold t; rewrite length_map; exact Hnt).
    assert (Hlp : List.length p = n) by (unfold p; rewrite length_map; exact Hnp).
    unfold np_subtract. rewrite Hlp, Hlt, Nat.eqb_refl.
    set (data1 := dict_set (c ++ "_误差")%string (zip_minus p t)
                    (dict_set (c ++ "_预测值")%string p
                       (dict_set (c ++ "_真实值")%string t data0))).
    assert (H1 : columns_of_length n data1).
    { unfold data1, columns_of_length.
      apply (dict_set_values (fun col => List.length col = n));
        [rewrite zip_minus_length; lia |].
      apply (dict_set_values (fun col => List.length col = n)); [exact Hlp |].
      apply (dict_set_values (fun col => List.length col = n)); [exact Hlt | exact H0]. }
    destruct (IH (S i) data1) as [data [Hb [Hc [Hkeep Hnames]]]]; [lia | exact H1 |].
    exists data. split; [exact Hb |]. split; [exact Hc |]. split.
    + intros k Hk. apply Hkeep. unfold data1.
      repeat apply dict_get_set_is_Some. exact Hk.
    + intros c' [<- | Hin]; [| apply Hnames; exact Hin].
      split; apply Hkeep; unfold data1.
      * do 2 apply dict_get_set_is_Some. rewrite dict_get_set_eq. eexists. reflexivity.
      * apply dict_get_set_is_Some. rewrite dict_get_set_eq. eexists. reflexivity.
Qed.

Lemma same_lengths_ok (n : nat) (data : list (string * list R)) :
  columns_of_length n data -> same_lengths data = true.
Proof.
  intros H. destruct data as [| [k col] rest]; [reflexivity |].
  apply Forall_cons_1 in H as [Hcol Hrest]. cbn [same_lengths].
  apply forallb_forall. intros kv Hkv.
  rewrite List.Forall_forall in Hrest.
  apply Nat.eqb_eq. rewrite (Hrest kv Hkv). simpl in Hcol. lia.
Qed.

Lemma build_stats_ok (n : nat) (df : list (string * list R)) (names : list string)
    (stats0 : list (string * npfloat)) :
  (1 <= n)%nat ->
  columns_of_length n df ->
  (forall c, In c names ->
     is_Some (dict_get (c ++ "_真实值")%string df)
     /\ is_Some (dict_get (c ++ "_预测值")%string df)) ->
  exists stats, build_stats df names stats0 = Done stats.
Proof.
  intros Hn Hdf. revert stats0.
  induction names as [| c names IH]; intros stats0 Hkeys.
  - exists stats0. reflexivity.
  - cbn [build_stats].
    destruct (Hkeys c (or_introl eq_refl)) as [[y_true Ht] [y_pred Hp]].
    rewrite Ht, Hp.
    assert (Hlen : forall k col, dict_get k df = Some col -> List.length col = n).
    { intros k col Hk. destruct (dict_get_In k col df Hk) as [k' Hin].
      unfold columns_of_length in Hdf. rewrite List.Forall_forall in Hdf.
      apply (Hdf (k', col) Hin). }
    unfold mean_squared_error.
    rewrite (Hlen _ _ Ht), (Hlen _ _ Hp), Nat.eqb_refl. simpl negb. cbv iota.
    destruct (Nat.eqb_spec n 0) as [E | _]; [lia |].
    apply IH. intros c' Hc'. apply Hkeys. right. exact Hc'.
Qed.

Lemma build_stats_stores (df : list (string * list R)) (names : list string)
    (stats0 stats : list (string * npfloat)) (c : string) :
  build_stats df names stats0 = Done stats ->
  In c names ->
  is_Some (dict_get (c ++ "_MSE")%string stats)
  /\ is_Some (dict_get (c ++ "_R2")%string stats)
  /\ is_Some (dict_get (c ++ "_MAE")%string stats).
Proof.
  revert stats0. induction names as [| c0 names IH]; intros stats0 Hb Hin.
  - destruct Hin.
  - cbn [build_stats] in Hb.
    destruct (dict_get (c0 ++ "_真实值")%string df) as [y_true |]; [| discriminate].
    destruct (dict_get (c0 ++ "_预测值")%string df) as [y_pred |]; [| discriminate].
    destruct (mean_squared_error y_true y_pred) as [mse | e]; [| discriminate].
    destruct (in_dec string_dec c names) as [Hn | Hn]; [exact (IH _ Hb Hn) |].
    destruct Hin as [<- | Hin]; [| contradiction].
    repeat split; apply (build_stats_keeps _ _ _ _ _ Hb).
    + do 2 apply dict_get_set_is_Some. rewrite dict_get_set_eq. eexists. reflexivity.
    + apply dict_get_set_is_Some. rewrite dict_get_set_eq. eexists. reflexivity.
    + rewrite dict_get_set_eq. eexists. reflexivity.
Qed.

(** However it is called with at least one component, [save_predictions]
    ends in an exception, either before anything is written or after the
    file has been written and the header of the summary printed. *)
Lemma save_predictions_cases (predictions targets : matrix) (component : string)
    (names : list string) (file_path : string) :
  exists (events : list event) (e : error),
    save_predictions predictions targets (component :: names) file_path
    = (events, Failed e)
    /\ (events = []
        \/ exists df stats,
             events = [WriteCsv file_path df stats; PrintSaved file_path;
                       PrintStatsHeader]).
Proof.
  unfold save_predictions.
  destruct (build_data predictions targets 0 (component :: names) []) as [data | e].
  2: { exists [], e. split; [reflexivity | left; reflexivity]. }
  destruct (same_lengths data); cbn [negb].
  2: { exists [], (Builtin ValueError). split; [reflexivity | left; reflexivity]. }
  destruct (build_stats data (component :: names) []) as [stats | e] eqn:Hb.
  2: { exists [], e. split; [reflexivity | left; reflexivity]. }
  rewrite (print_stats_fails stats component names
             (build_stats_keys _ _ _ _ Hb (List.Forall_nil _))).
  eexists _, _. split; [reflexivity |]. right. exists data, stats. reflexivity.
Qed.

(** On arrays of [n >= 1] rows and [d] columns, with at least one and at
    most [d] components named, [save_predictions] writes the table and the
    statistics to the file, prints that it has saved them and the header of
    the summary, and then raises [KeyError] for the first component: the
    summary line reads the key ending in a superscript two, but every
    component's statistic was stored under the key ending in the digit.
    No summary line is printed. *)
Theorem save_predictions_key_error (predictions targets : matrix) (n d : nat)
    (component : string) (names : list string) (file_path : string) :
  rectangular d predictions -> rectangular d targets ->
  List.length predictions = n -> List.length targets = n ->
  (1 <= n)%nat ->
  (List.length (component :: names) <= d)%nat ->
  exists (df : list (string * list R)) (stats : list (string * npfloat)),
    save_predictions predictions targets (component :: names) file_path
    = ([WriteCsv file_path df stats; PrintSaved file_path; PrintStatsHeader],
       Failed (KeyError (component ++ "_R²")%string))
    /\ columns_of_length n df
    /\ forall c, In c (component :: names) ->
         is_Some (dict_get (c ++ "_R2")%string stats)
         /\ dict_get (c ++ "_R²")%string stats = None.
Proof.
  intros Hp Ht Hnp Hnt Hn Hd.
  destruct (build_data_ok predictions targets n d (component :: names) 0 []
              Hp Ht Hnp Hnt Hd (List.Forall_nil _))
    as [data [Hdata [Hcols [_ Hkeys]]]].
  destruct (build_stats_ok n data (component :: names) [] Hn Hcols Hkeys)
    as [stats Hstats].
  pose proof (build_stats_keys _ _ _ _ Hstats (List.Forall_nil _)) as Hplain.
  exists data, stats. split; [| split; [exact Hcols |]].
  - unfold save_predictions.
    rewrite Hdata, (same_lengths_ok n data Hcols). cbn [negb]. rewrite Hstats.
    rewrite (print_stats_fails stats component names Hplain).
    destruct (build_stats_first _ _ _ _ Hstats) as [mse ->]. reflexivity.
  - intros c Hc. split.
    + apply (build_stats_stores _ _ _ _ c Hstats Hc).
    + apply superscript_key_missing. exact Hplain.
Qed.

(** With at least one component named, [save_predictions] never returns:
    whatever the arrays are it ends in an exception, and it prints no line of
    the summary. *)
Theorem save_predictions_never_returns (predictions targets : matrix)
    (component : string) (names : list string) (file_path : string) :
  exists (events : list event) (e : error),
    save_predictions predictions targets (component :: names) file_path
    = (events, Failed e)
    /\ (forall c mse r2 mae, ~ In (PrintStats c mse r2 mae) events)
    /\ (List.length events = 0 \/ List.length events = 3)%nat.
Proof.
  destruct (save_predictions_cases predictions targets component names file_path)
    as [events [e [Heq Hev]]].
  exists events, e. split; [exact Heq |].
  destruct Hev as [-> | [df [stats ->]]].
  - split; [intros c mse r2 mae [] | left; reflexivity].
  - split; [| right; reflexivity].
    intros c mse r2 mae [H | [H | [H | []]]]; discriminate H.
Qed.

(** [main] never saves the model and never finishes with status 0:
    whatever the stages before [save_predictions] do, the run ends by
    printing an error and leaving with status 1, and nothing after those
    stages writes [nir_spectroscopy_model.pth] or reports success. *)
Theorem main_never_saves_model (stages : list event * outcome (matrix * matrix)) :
  exists (tail : list event) (e : error),
    main stages = ((fst stages ++ tail ++ [PrintError e])%list, 1%Z)
    /\ (forall path, ~ In (TorchSave path) tail)
    /\ ~ In PrintModelSaved tail /\ ~ In PrintFinished tail.
Proof.
  destruct stages as [events [[predictions targets] | e]]; unfold main, fst.
  - unfold component_names.
    destruct (save_predictions_cases predictions targets "水分"%string
                ["油脂"; "蛋白质"; "淀粉"]%string "predictions.csv"%string)
      as [events' [e [-> Hev]]].
    exists events', e. split; [reflexivity |].
    destruct Hev as [-> | [df [stats ->]]].
    + repeat split; intros; intros [].
    + repeat split; intros; intros [H | [H | [H | []]]]; discriminate H.
  - exists [], e. split; [reflexivity |].
    repeat split; intros; intros [].
Qed.

End SavePredictions.

(** Two test samples, two components, any [r2_score]. *)
Lemma save_predictions_key_error_witness :
  exists (df : list (string * list R)) (stats : list (string * npfloat)),
    save_predictions (fun _ _ => NaN) [[1; 2]; [3; 4]] [[1; 1]; [2; 2]]
      ["a"; "b"]%string "predictions.csv"%string
    = ([WriteCsv "predictions.csv"%string df stats;
        PrintSaved "predictions.csv"%string; PrintStatsHeader],
       Failed (KeyError ("a" ++ "_R²")%string))
    /\ columns_of_length 2 df
    /\ forall c, In c ["a"; "b"]%string ->
         is_Some (dict_get (c ++ "_R2")%string stats)
         /\ dict_get (c ++ "_R²")%string stats = None.
Proof.
  apply (save_predictions_key_error (fun _ _ => NaN)
           [[1; 2]; [3; 4]] [[1; 1]; [2; 2]] 2 2 "a"%string ["b"%string]
           "predictions.csv"%string).
  - repeat constructor.
  - repeat constructor.
  - reflexivity.
  - reflexivity.
  - lia.
  - simpl. lia.
Defined.

End Report.
